(** * Hedera Community Platform: persistence, audit, access control, gateway

    A shallow embedding of
    - [src/db/schema.ts]      (record shapes and storage keys),
    - [src/db/operations.ts]  (local-storage repositories and audit log),
    - [localDatabase.ts]      (the older dataset-version store),
    - [netlify/functions/api.ts] (the bearer-token gateway),
    followed by the properties the specification states about them. *)

From stdpp Require Import gmap strings list fin_maps pretty.
From Stdlib Require Import ZArith Ascii.

Open Scope string_scope.

(** ** Record shapes ([src/db/schema.ts]) *)

(** A JavaScript [number] carried as data.  None of the embedded functions
    computes with these fields; they are stored, copied and printed only. *)
Definition number := Z.

(** The text the engine gives a number ([Number::toString]) where a
    template literal or a property key needs one.  It is the plain decimal
    text for an integer below [2^53] in absolute value; beyond that the
    engine writes the shortest digits that read back as the same number,
    and from [10^21] on an exponent ([1e+21]).  The embedded functions only
    paste the text, so it is taken from the engine. *)
Class Engine := Number_toString : number → string.

Inductive Currency := HBAR | USDC | USD | EUR.
Inductive InvoiceStatus := Draft | Sent | Paid | Overdue | Void.

Module InvoiceLineItem.
Record t := mk {
  id : string;
  description : string;
  quantity : number;
  unitPrice : number;
  total : number
}.
End InvoiceLineItem.

Module Invoice.
Record t := mk {
  id : string;
  invoiceNumber : string;
  partnerCode : string;
  billingPeriod : string;
  issueDate : string;
  dueDate : string;
  currency : Currency;
  items : list InvoiceLineItem.t;
  subtotal : number;
  taxRate : number;
  taxAmount : number;
  totalAmount : number;
  status : InvoiceStatus;
  notes : string;
  publicMemo : string;
  paidAt : option string;
  transactionReference : option string
}.
End Invoice.

(** [Partial<Invoice>]: every field may be left out; a field that is there
    holds a value of the field's type.  (An object that carries a member
    whose value is [undefined] is not among these records.) *)
Module PartialInvoice.
Record t := mk {
  id : option string;
  invoiceNumber : option string;
  partnerCode : option string;
  billingPeriod : option string;
  issueDate : option string;
  dueDate : option string;
  currency : option Currency;
  items : option (list InvoiceLineItem.t);
  subtotal : option number;
  taxRate : option number;
  taxAmount : option number;
  totalAmount : option number;
  status : option InvoiceStatus;
  notes : option string;
  publicMemo : option string;
  paidAt : option string;
  transactionReference : option string
}.

Definition empty : t :=
  mk None None None None None None None None None None None None None None
     None None None.
End PartialInvoice.

(** The object spread [{ ...existing, ...updates }]: a field present in
    [updates] wins, any other field keeps the existing value. *)
Definition spread (existing : Invoice.t) (updates : PartialInvoice.t) : Invoice.t :=
  {| Invoice.id := default (Invoice.id existing) (PartialInvoice.id updates);
     Invoice.invoiceNumber :=
       default (Invoice.invoiceNumber existing) (PartialInvoice.invoiceNumber updates);
     Invoice.partnerCode :=
       default (Invoice.partnerCode existing) (PartialInvoice.partnerCode updates);
     Invoice.billingPeriod :=
       default (Invoice.billingPeriod existing) (PartialInvoice.billingPeriod updates);
     Invoice.issueDate :=
       default (Invoice.issueDate existing) (PartialInvoice.issueDate updates);
     Invoice.dueDate := default (Invoice.dueDate existing) (PartialInvoice.dueDate updates);
     Invoice.currency :=
       default (Invoice.currency existing) (PartialInvoice.currency updates);
     Invoice.items := default (Invoice.items existing) (PartialInvoice.items updates);
     Invoice.subtotal :=
       default (Invoice.subtotal existing) (PartialInvoice.subtotal updates);
     Invoice.taxRate := default (Invoice.taxRate existing) (PartialInvoice.taxRate updates);
     Invoice.taxAmount :=
       default (Invoice.taxAmount existing) (PartialInvoice.taxAmount updates);
     Invoice.totalAmount :=
       default (Invoice.totalAmount existing) (PartialInvoice.totalAmount updates);
     Invoice.status := default (Invoice.status existing) (PartialInvoice.status updates);
     Invoice.notes := default (Invoice.notes existing) (PartialInvoice.notes updates);
     Invoice.publicMemo :=
       default (Invoice.publicMemo existing) (PartialInvoice.publicMemo updates);
     Invoice.paidAt :=
       match PartialInvoice.paidAt updates with
       | Some p => Some p
       | None => Invoice.paidAt existing
       end;
     Invoice.transactionReference :=
       match PartialInvoice.transactionReference updates with
       | Some r => Some r
       | None => Invoice.transactionReference existing
       end |}.

Inductive AdminRole := SuperAdminHQ | RegionalAdminCluster | CommunityAdminLocal.
Inductive AdminStatus := Active | Invited | Disabled.

(** The role literals of [AdminSchema.role]. *)
Definition role_literal (r : AdminRole) : string :=
  match r with
  | SuperAdminHQ => "Super Admin (HQ)"
  | RegionalAdminCluster => "Regional Admin (Cluster)"
  | CommunityAdminLocal => "Community Admin (Local)"
  end.

Module AdminUser.
Record t := mk {
  id : string;
  name : string;
  email : string;
  role : AdminRole;
  assignedCodes : list string;
  lastLogin : string;
  status : AdminStatus
}.
End AdminUser.

(** Modelled from the spec: the declaration of [DatasetVersion] lives in
    [types.ts], which is not among the sources.  The glossary calls it a
    retained snapshot of an uploaded developer dataset; the record keeps the
    three fields that [DatasetVersions.save] and [DatasetVersions.delete]
    read. *)
Module DatasetVersion.
Record t := mk {
  id : string;
  fileName : string;
  recordCount : number
}.
End DatasetVersion.

Inductive AuditAction :=
  CREATE | UPDATE | DELETE | VIEW | UPLOAD | EMAIL_SENT | INVOICE_CREATED | LOGIN.
Inductive AuditEntity :=
  E_developer | E_invoice | E_event | E_agreement | E_campaign | E_admin | E_registry.

Module AuditLogSchema.
Record t := mk {
  id : string;
  userId : string;
  userEmail : string;
  timestamp : string;
  action : AuditAction;
  entityType : AuditEntity;
  entityId : option string;
  details : string;
  partnerCode : option string
}.
End AuditLogSchema.

(** [Omit<AuditLogSchema, 'id' | 'timestamp'>] *)
Module AuditLogInput.
Record t := mk {
  userId : string;
  userEmail : string;
  action : AuditAction;
  entityType : AuditEntity;
  entityId : option string;
  details : string;
  partnerCode : option string
}.
End AuditLogInput.

Module COLLECTION_KEYS.
Definition VERSIONS := "hcp_versions".
Definition CURRENT_VERSION := "hcp_active_version_id".
Definition INVOICES := "hcp_invoices".
Definition AGREEMENTS := "hcp_agreements".
Definition EVENTS := "hcp_events".
Definition CAMPAIGNS := "hcp_campaigns".
Definition ADMINS := "hcp_admins".
Definition REGISTRY := "hcp_registry".
Definition AUDIT_LOGS := "hcp_audit_logs".
End COLLECTION_KEYS.

(** ** The browser's local storage *)

(** What a key of [localStorage] holds.  The code writes
    [JSON.stringify(data)] and reads back with [JSON.parse]; a slot is
    represented by the value that text parses to.  [Unparsable] stands for
    text on which [JSON.parse] throws, and for the empty string, which the
    test [item ? ... : fallback] treats like a missing key. *)
Inductive stored :=
| StoredVersions (vs : list DatasetVersion.t)
| StoredInvoices (invs : list Invoice.t)
| StoredAdmins (ads : list AdminUser.t)
| StoredAuditLogs (ls : list AuditLogSchema.t)
| Unparsable (text : string).

Abbreviation LocalStorage := (gmap string stored).

(** The generic parameter [T] of [saveToStorage<T>] / [loadFromStorage<T>]:
    how a value of the collection type becomes a slot and back, parsing
    what was stringified giving the value again.  A slot of another
    collection's shape is outside the typed contract of the callers and
    reads as the fallback. *)
Class Storable (T : Type) := {
  to_slot : T → stored;
  of_slot : stored → option T;
  of_to_slot : ∀ data, of_slot (to_slot data) = Some data
}.

#[global] Instance storable_versions : Storable (list DatasetVersion.t) :=
  {| to_slot := StoredVersions;
     of_slot := λ v, match v with StoredVersions l => Some l | _ => None end;
     of_to_slot := λ _, eq_refl |}.
#[global] Instance storable_invoices : Storable (list Invoice.t) :=
  {| to_slot := StoredInvoices;
     of_slot := λ v, match v with StoredInvoices l => Some l | _ => None end;
     of_to_slot := λ _, eq_refl |}.
#[global] Instance storable_admins : Storable (list AdminUser.t) :=
  {| to_slot := StoredAdmins;
     of_slot := λ v, match v with StoredAdmins l => Some l | _ => None end;
     of_to_slot := λ _, eq_refl |}.
#[global] Instance storable_audit : Storable (list AuditLogSchema.t) :=
  {| to_slot := StoredAuditLogs;
     of_slot := λ v, match v with StoredAuditLogs l => Some l | _ => None end;
     of_to_slot := λ _, eq_refl |}.

(** The backing medium decides whether a [setItem] goes through (quota,
    private mode, storage disabled).  The decision may depend on what is
    already stored, on the key and on the value written. *)
Class Medium := accepts : LocalStorage → string → stored → bool.

(** ** Computations over the store that may throw *)

(** A computation takes the store and gives a completion, normal or
    abrupt, with the store it leaves.  What the code prints with
    [console.error] is no part of the store and is left out. *)

Inductive exn :=
| QuotaExceededError
| Error (message : string).

Inductive completion (A : Type) :=
| Normal (a : A)
| Throw (e : exn).
Arguments Normal {A} a.
Arguments Throw {A} e.

Definition JS (A : Type) : Type := LocalStorage → completion A * LocalStorage.

Definition throw {A} (e : exn) : JS A := λ st, (Throw e, st).
Definition try_catch {A} (m : JS A) (handler : exn → JS A) : JS A :=
  λ st, match m st with
        | (Normal a, st') => (Normal a, st')
        | (Throw e, st') => handler e st'
        end.

#[global] Instance JS_ret : MRet JS := λ A a st, (Normal a, st).
#[global] Instance JS_bind : MBind JS := λ A B k m st,
  match m st with
  | (Normal a, st') => k a st'
  | (Throw e, st') => (Throw e, st')
  end.

(** [localStorage.setItem] and [localStorage.getItem] *)
Definition setItem `{Medium} (key : string) (v : stored) : JS unit :=
  λ st, if accepts st key v then (Normal (), <[key := v]> st)
        else (Throw QuotaExceededError, st).

Definition getItem (key : string) : JS (option stored) :=
  λ st, (Normal (st !! key), st).

(** ** Generic storage operations ([src/db/operations.ts]) *)

Definition saveToStorage `{Medium} {T} `{Storable T} (key : string) (data : T) : JS unit :=
  try_catch (setItem key (to_slot data))
    (λ _, throw (Error ("Storage quota exceeded or unavailable for " +:+ key))).

Definition loadFromStorage {T} `{Storable T} (key : string) (fallback : T) : JS T :=
  item ← getItem key;
  match item with
  | Some v => match of_slot v with
              | Some data => mret data
              | None => mret fallback
              end
  | None => mret fallback
  end.

(** ** Audit logging *)

(** What one call of [createAuditLog] reads from its surroundings:
    [Date.now()], the nine characters kept of
    [Math.random().toString(36)], and [new Date().toISOString()].
    [Date.now()] is a time value, an integer of at most [8.64e15] in
    absolute value, so its text in the id is its plain decimal text. *)
Record Readings := {
  date_now : Z;
  random_suffix : string;
  iso_timestamp : string
}.

Definition newLog (r : Readings) (log : AuditLogInput.t) : AuditLogSchema.t :=
  {| AuditLogSchema.id := "audit_" +:+ pretty (date_now r) +:+ "_" +:+ random_suffix r;
     AuditLogSchema.userId := AuditLogInput.userId log;
     AuditLogSchema.userEmail := AuditLogInput.userEmail log;
     AuditLogSchema.timestamp := iso_timestamp r;
     AuditLogSchema.action := AuditLogInput.action log;
     AuditLogSchema.entityType := AuditLogInput.entityType log;
     AuditLogSchema.entityId := AuditLogInput.entityId log;
     AuditLogSchema.details := AuditLogInput.details log;
     AuditLogSchema.partnerCode := AuditLogInput.partnerCode log |}.

Definition createAuditLog `{Medium} (r : Readings) (log : AuditLogInput.t) : JS unit :=
  logs ← loadFromStorage COLLECTION_KEYS.AUDIT_LOGS ([] : list AuditLogSchema.t);
  let updatedLogs := take 1000 (newLog r log :: logs) in
  saveToStorage COLLECTION_KEYS.AUDIT_LOGS updatedLogs.

(** ** Array helpers *)

(** [Array.prototype.findIndex]; [None] stands for the result [-1]. *)
Fixpoint findIndex {A} (p : A → bool) (l : list A) : option nat :=
  match l with
  | [] => None
  | x :: l' => if p x then Some 0 else S <$> findIndex p l'
  end.

(** [Array.prototype.includes] on an array of strings. *)
Definition includes (l : list string) (x : string) : bool :=
  existsb (String.eqb x) l.

(** A string used as a condition: [undefined] and [''] are falsy. *)
Definition truthy (s : option string) : bool :=
  match s with
  | Some s => negb (String.eqb s "")
  | None => false
  end.

(** ** Dataset versions *)

Module DatasetVersions.
Section Ops.
Context `{Medium} `{Engine}.

Definition getAll : JS (list DatasetVersion.t) :=
  loadFromStorage COLLECTION_KEYS.VERSIONS [].

Definition getById (id : string) : JS (option DatasetVersion.t) :=
  vs ← getAll;
  mret (find (λ v, String.eqb (DatasetVersion.id v) id) vs).

(** The entry [save] hands to [createAuditLog]. *)
Definition upload_entry (version : DatasetVersion.t) (userId : string)
    : AuditLogInput.t :=
  {| AuditLogInput.userId := userId;
     AuditLogInput.userEmail := "system";
     AuditLogInput.action := UPLOAD;
     AuditLogInput.entityType := E_developer;
     AuditLogInput.entityId := Some (DatasetVersion.id version);
     AuditLogInput.details :=
       "Uploaded dataset: " +:+ DatasetVersion.fileName version +:+ " with "
       +:+ Number_toString (DatasetVersion.recordCount version) +:+ " records";
     AuditLogInput.partnerCode := None |}.

Definition save (r : Readings) (version : DatasetVersion.t)
    (userId : option string) : JS unit :=
  let userId := default "system" userId in
  current ← getAll;
  let updated := version :: current in
  let updated := if (5 <? length updated)%nat then removelast updated else updated in
  saveToStorage COLLECTION_KEYS.VERSIONS updated;;
  createAuditLog r (upload_entry version userId).
End Ops.
End DatasetVersions.

(** ** Invoices *)

Module Invoices.
Section Ops.
Context `{Medium}.

Definition save (invoices : list Invoice.t) : JS unit :=
  saveToStorage COLLECTION_KEYS.INVOICES invoices.

Definition getAll (partnerCode : option string) : JS (list Invoice.t) :=
  invoices ← loadFromStorage COLLECTION_KEYS.INVOICES [];
  if truthy partnerCode
  then mret (filter (λ i, Some (Invoice.partnerCode i) = partnerCode) invoices)
  else mret invoices.

Definition getById (id : string) : JS (option Invoice.t) :=
  invoices ← getAll None;
  mret (find (λ i, String.eqb (Invoice.id i) id) invoices).

(** The entries [create] and [update] hand to [createAuditLog]. *)
Definition created_entry (invoice : Invoice.t) (userId : string) : AuditLogInput.t :=
  {| AuditLogInput.userId := userId;
     AuditLogInput.userEmail := "system";
     AuditLogInput.action := INVOICE_CREATED;
     AuditLogInput.entityType := E_invoice;
     AuditLogInput.entityId := Some (Invoice.id invoice);
     AuditLogInput.details :=
       "Created invoice " +:+ Invoice.invoiceNumber invoice +:+ " for "
       +:+ Invoice.partnerCode invoice;
     AuditLogInput.partnerCode := Some (Invoice.partnerCode invoice) |}.

Definition updated_entry (id : string) (merged : Invoice.t) (userId : string)
    : AuditLogInput.t :=
  {| AuditLogInput.userId := userId;
     AuditLogInput.userEmail := "system";
     AuditLogInput.action := UPDATE;
     AuditLogInput.entityType := E_invoice;
     AuditLogInput.entityId := Some id;
     AuditLogInput.details := "Updated invoice " +:+ Invoice.invoiceNumber merged;
     AuditLogInput.partnerCode := Some (Invoice.partnerCode merged) |}.

Definition create (r : Readings) (invoice : Invoice.t)
    (userId : option string) : JS unit :=
  let userId := default "system" userId in
  invoices ← getAll None;
  let invoices := invoice :: invoices in
  save invoices;;
  createAuditLog r (created_entry invoice userId).

Definition update (r : Readings) (id : string) (updates : PartialInvoice.t)
    (userId : option string) : JS unit :=
  let userId := default "system" userId in
  invoices ← getAll None;
  match findIndex (λ i, String.eqb (Invoice.id i) id) invoices with
  | Some index =>
      match invoices !! index with
      | Some existing =>
          let merged := spread existing updates in
          let invoices := <[index := merged]> invoices in
          save invoices;;
          createAuditLog r (updated_entry id merged userId)
      | None => mret ()
      end
  | None => mret ()
  end.
End Ops.
End Invoices.

(** ** Admins and access control *)

(** [MOCK_ADMIN_TEAM] comes from [constants.ts], which is not among the
    sources; it is the roster used while the admins key holds nothing. *)
Class Constants := MOCK_ADMIN_TEAM : list AdminUser.t.

Module Admins.
Section Ops.
Context `{Medium} `{Constants}.

Definition save (admins : list AdminUser.t) : JS unit :=
  saveToStorage COLLECTION_KEYS.ADMINS admins.

Definition getAll : JS (list AdminUser.t) :=
  loadFromStorage COLLECTION_KEYS.ADMINS MOCK_ADMIN_TEAM.

Definition getById (id : string) : JS (option AdminUser.t) :=
  admins ← getAll;
  mret (find (λ a, String.eqb (AdminUser.id a) id) admins).

Definition hasAccess (userId partnerCode : string) : JS bool :=
  admin ← getById userId;
  match admin with
  | None => mret false
  | Some admin =>
      if String.eqb (role_literal (AdminUser.role admin)) "Super Admin (HQ)"
      then mret true
      else mret (includes (AdminUser.assignedCodes admin) partnerCode)
  end.
End Ops.
End Admins.

(** ** The older dataset store ([localDatabase.ts]) *)

Module LocalDatabaseService.
Module KEYS.
Definition VERSIONS := "hcp_versions".
End KEYS.

Section Ops.
Context `{Medium}.

Definition getDatasetVersions : JS (list DatasetVersion.t) :=
  try_catch
    (data ← getItem KEYS.VERSIONS;
     match data with
     | Some v => match of_slot v with
                 | Some vs => mret vs
                 | None => throw (Error "SyntaxError")
                 end
     | None => mret []
     end)
    (λ _, mret []).

(** The [catch] branch writes to the console and raises an [alert];
    neither touches the store. *)
Definition saveDatasetVersion (version : DatasetVersion.t) : JS unit :=
  try_catch
    (current ← getDatasetVersions;
     let updated := version :: current in
     let updated := if (5 <? length updated)%nat then removelast updated else updated in
     setItem KEYS.VERSIONS (to_slot updated))
    (λ _, mret ()).
End Ops.
End LocalDatabaseService.

(** ** The gateway ([netlify/functions/api.ts]) *)

(** Values produced by [JSON.parse] and handed to [JSON.stringify].  An
    object is the list of its members in insertion order; the parser yields
    no repeated member names. *)
#[warnings="-register-all"]
Inductive json :=
| JNull
| JBool (b : bool)
| JNum (n : number)
| JStr (s : string)
| JArr (elems : list json)
| JObj (members : list (string * json)).

(** A JSON value used as a condition, [None] being [undefined]. *)
Definition json_truthy (v : option json) : bool :=
  match v with
  | None | Some JNull => false
  | Some (JBool b) => b
  | Some (JNum n) => negb (n =? 0)%Z
  | Some (JStr s) => negb (String.eqb s "")
  | Some (JArr _) | Some (JObj _) => true
  end.

(** Reading the member [name] while destructuring [const { type, data } =
    body]: [null] has no members and the access throws (outer [None]);
    arrays, strings, numbers and booleans have neither a [type] nor a
    [data] member. *)
Definition get_member (name : string) (v : json) : option (option json) :=
  match v with
  | JNull => None
  | JObj members => Some (snd <$> find (λ m, String.eqb (fst m) name) members)
  | _ => Some None
  end.

(** Whether an object has a member of its own under [name]. *)
Definition has_own (name : string) (members : list (string * json)) : bool :=
  existsb (λ m, String.eqb (fst m) name) members.

(** The string a value turns into when it is used as a property key
    ([ToPropertyKey]); [None] is the [TypeError] of a value that has no
    primitive.  An object is asked for its [toString] and then its [valueOf]:
    a member [toString] of its own, which after [JSON.parse] is never a
    function, hides the inherited one, and [valueOf], its own or inherited,
    gives no primitive either.  An array joins the strings of its elements,
    [null] counting as the empty string, and fails where one of them does. *)
Fixpoint ToString `{Engine} (v : json) : option string :=
  match v with
  | JNull => Some "null"
  | JBool true => Some "true"
  | JBool false => Some "false"
  | JNum n => Some (Number_toString n)
  | JStr s => Some s
  | JArr elems =>
      String.concat "," <$>
        (fix join (l : list json) : option (list string) :=
           match l with
           | [] => Some []
           | e :: l =>
               match match e with JNull => Some "" | _ => ToString e end with
               | Some s => cons s <$> join l
               | None => None
               end
           end) elems
  | JObj members =>
      if has_own "toString" members then None else Some "[object Object]"
  end.

Definition indices (n : nat) : list string := (λ i : nat, pretty i) <$> seq 0 n.

Definition Object_keys (v : json) : list string :=
  match v with
  | JObj members => fst <$> members
  | JArr elems => indices (length elems)
  | JStr s => indices (String.length s)
  | _ => []
  end.

Definition Object_values (v : json) : list json :=
  match v with
  | JObj members => snd <$> members
  | JArr elems => elems
  | JStr s => (λ c, JStr (String c "")) <$> String.list_ascii_of_string s
  | _ => []
  end.

Definition entityTableMap : list (string * string) :=
  [ ("developers", "developers");
    ("invoices", "invoices");
    ("events", "events");
    ("admins", "admins");
    ("agreements", "agreements");
    ("campaigns", "campaigns");
    ("registry", "registry") ].

(** [entityTableMap] is an object literal, so a lookup that misses its own
    members falls through to [Object.prototype]. *)
Definition Object_prototype : list string :=
  [ "constructor"; "hasOwnProperty"; "isPrototypeOf"; "propertyIsEnumerable";
    "toLocaleString"; "toString"; "valueOf"; "__proto__";
    "__defineGetter__"; "__defineSetter__"; "__lookupGetter__";
    "__lookupSetter__" ].

Inductive table_ref :=
| OwnTable (name : string)
| Inherited (member : string).

(** [entityTableMap[key]]; [None] is [undefined].  Every own value is a
    non-empty string and every inherited member is a function or an object,
    so whatever is found passes the test [!tableName]. *)
Definition entityTableMap_own (key : string) : option string :=
  snd <$> find (λ m, String.eqb (fst m) key) entityTableMap.

Definition entityTableMap_at (key : string) : option table_ref :=
  match entityTableMap_own key with
  | Some name => Some (OwnTable name)
  | None => if includes Object_prototype key then Some (Inherited key) else None
  end.

(** The [switch] of the GET branch: each [case] label reads the member of
    [entityTableMap] of the same name, [default] gives no table. *)
Definition switch_tableName (type : string) : option string :=
  if includes ["developers"; "invoices"; "events"; "admins"; "agreements";
               "campaigns"; "registry"] type
  then entityTableMap_own type
  else None.

Definition in_range (lo hi c : ascii) : bool := Ascii.leb lo c && Ascii.leb c hi.

(** The character classes [[a-zA-Z_]] and [[a-zA-Z0-9_]]. *)
Definition ident_start (c : ascii) : bool :=
  in_range "a" "z" c || in_range "A" "Z" c || Ascii.eqb c "_".
Definition ident_char (c : ascii) : bool :=
  in_range "a" "z" c || in_range "A" "Z" c || in_range "0" "9" c || Ascii.eqb c "_".

(** [/^[a-zA-Z_][a-zA-Z0-9_]*$/.test(name)] *)
Definition isValidColumnName (name : string) : bool :=
  match name with
  | EmptyString => false
  | String c rest => ident_start c && forallb ident_char (String.list_ascii_of_string rest)
  end.

(** What [jwt.verify] does with a token and a secret: it returns the
    payload, or throws one of the library's three error classes
    ([JsonWebTokenError] covers a malformed token and a bad signature). *)
Inductive jwt_result :=
| Verified
| JsonWebTokenError (message : string)
| TokenExpiredError
| NotBeforeError.

(** The services the handler calls and the repository does not define. *)
Class Services := {
  JSON_parse : string → option json;
  jwt_verify : string → string → jwt_result;
  engine :: Engine;
  Database : Type;
  query : string → list json → Database → option (list json) * Database;
  inherited_text : string → string
}.

Record ProcessEnv := { JWT_SECRET : option string }.

Record HandlerEvent := {
  headers : gmap string string;
  httpMethod : string;
  queryStringParameters : option (gmap string string);
  body : option string
}.

(** [body] is the value given to [JSON.stringify], [None] when that value
    is [undefined]. *)
Record HandlerResponse := {
  statusCode : Z;
  response_body : option json
}.

(** A request's effect: the response, the database afterwards, and the
    statements sent to [query], oldest first. *)
Record Outcome `{Services} := {
  response : HandlerResponse;
  database : Database;
  issued : list (string * list json)
}.

Definition js_or (a b : option string) : option string :=
  if truthy a then a else b.

Definition startsWith (s pre : string) : bool := String.prefix pre s.

Fixpoint substring_from (n : nat) (s : string) : string :=
  match n, s with
  | O, _ => s
  | S n', String _ rest => substring_from n' rest
  | S _, EmptyString => EmptyString
  end.

Definition tableName_text `{Services} (t : table_ref) : string :=
  match t with
  | OwnTable name => name
  | Inherited member => inherited_text member
  end.

Definition placeholders (keys : list string) : string :=
  String.concat ", " ((λ i : nat, "$" +:+ pretty (i + 1)%nat) <$> seq 0 (length keys)).

Section Gateway.
Context `{Services}.

Definition reply (db : Database) (code : Z) (v : option json) : Outcome :=
  {| response := {| statusCode := code; response_body := v |};
     database := db; issued := [] |}.

Definition error_reply (db : Database) (code : Z) (msg : string) : Outcome :=
  reply db code (Some (JObj [("error", JStr msg)])).

(** Runs one statement; [None] when the promise rejects.  A call without
    parameters passes the empty list. *)
Definition run_query (text : string) (params : list json) (db : Database)
    (answer : list json → HandlerResponse) : Outcome :=
  match query text params db with
  | (Some rows, db') =>
      {| response := answer rows; database := db'; issued := [(text, params)] |}
  | (None, db') =>
      {| response := {| statusCode := 500;
                        response_body :=
                          Some (JObj [("error", JStr "Internal server error")]) |};
         database := db'; issued := [(text, params)] |}
  end.

Definition handle_GET (event : HandlerEvent) (db : Database) : Outcome :=
  let type := queryStringParameters event ≫= (λ q, q !! "type") in
  if negb (truthy type) then error_reply db 400 "Missing type parameter"
  else
    match switch_tableName (default "" type) with
    | Some tableName =>
        run_query ("SELECT * FROM " +:+ tableName) [] db
          (λ rows, {| statusCode := 200; response_body := Some (JArr rows) |})
    | None => error_reply db 400 "Invalid type parameter"
    end.

(** [event.body || '{}'] *)
Definition body_text (event : HandlerEvent) : string :=
  if truthy (body event) then default "" (body event) else "{}".

Definition handle_POST (event : HandlerEvent) (db : Database) : Outcome :=
  match JSON_parse (body_text event) with
  | None => error_reply db 500 "Internal server error"
  | Some parsed =>
      match get_member "type" parsed, get_member "data" parsed with
      | Some type, Some data =>
          if negb (json_truthy type) || negb (json_truthy data)
          then error_reply db 400 "Missing type or data in request body"
          else
            match ToString (default JNull type) with
            | None => error_reply db 500 "Internal server error"
            | Some key =>
                match entityTableMap_at key with
                | None => error_reply db 400 "Invalid type parameter"
                | Some tableName =>
                    let data := default JNull data in
                    let keys := Object_keys data in
                    if forallb isValidColumnName keys
                    then
                      let values := Object_values data in
                      let columns := String.concat ", " keys in
                      let insertQuery :=
                        "INSERT INTO " +:+ tableName_text tableName +:+ " (" +:+ columns
                        +:+ ") VALUES (" +:+ placeholders keys +:+ ") RETURNING *" in
                      run_query insertQuery values db
                        (λ rows, {| statusCode := 200; response_body := head rows |})
                    else error_reply db 400 "Invalid column name in data"
                end
            end
      | _, _ => error_reply db 500 "Internal server error"
      end
  end.

(** What the handler does once the token is verified. *)
Definition dispatch (event : HandlerEvent) (db : Database) : Outcome :=
  if String.eqb (httpMethod event) "GET" then handle_GET event db
  else if String.eqb (httpMethod event) "POST" then handle_POST event db
  else error_reply db 405 "Method not allowed".

(** [event.headers.authorization || event.headers.Authorization] *)
Definition authorization_header (event : HandlerEvent) : option string :=
  js_or (headers event !! "authorization") (headers event !! "Authorization").

Definition handler (env : ProcessEnv) (event : HandlerEvent) (db : Database) : Outcome :=
  let authHeader := authorization_header event in
  if negb (truthy authHeader) || negb (startsWith (default "" authHeader) "Bearer ")
  then error_reply db 401 "Unauthorized"
  else
    let token := substring_from 7 (default "" authHeader) in
    if negb (truthy (JWT_SECRET env))
    then error_reply db 500 "Internal server error"
    else
      match jwt_verify token (default "" (JWT_SECRET env)) with
      | Verified => dispatch event db
      | _ => error_reply db 401 "Invalid token"
      end.
End Gateway.

(** ** The login endpoint (three versions of [netlify/functions/auth.ts]) *)

(** The two library calls of the login handlers.  [bcrypt.compare] gets
    the password of the request and the [password] member of the row, and
    resolves to a boolean or rejects ([None]); [jwt.sign] gets the [id] and
    [role] members of the row, the secret ([None] when the variable is not
    set) and the [expiresIn] option, and returns the token or throws. *)
Class AuthServices := {
  bcrypt_compare : json → option json → option bool;
  jwt_sign : option json → option json → option string → string → option string
}.

(** Reading a member of a value that is known not to be [null]. *)
Definition member (name : string) (v : json) : option json :=
  default None (get_member name v).

(** The own enumerable properties of a value, in order. *)
Definition members_of (v : json) : list (string * json) :=
  zip (Object_keys v) (Object_values v).

(** [const { password: _, ...userWithoutPassword } = user] *)
Definition rest_without (name : string) (v : json) : json :=
  JObj (filter (λ m, m.1 ≠ name) (members_of v)).

Section Login.
Context `{Services} `{AuthServices}.

(** A reply after the statement [sent] has gone to the database. *)
Definition after_query (db : Database) (sent : string * list json) (code : Z)
    (v : option json) : Outcome :=
  {| response := {| statusCode := code; response_body := v |};
     database := db; issued := [sent] |}.

Definition error_after_query (db : Database) (sent : string * list json) (code : Z)
    (msg : string) : Outcome :=
  after_query db sent code (Some (JObj [("error", JStr msg)])).

Definition login_body (token : string) (user : json) : option json :=
  Some (JObj [("token", JStr token); ("user", rest_without "password" user)]).
End Login.

(** The version with the typed row, the secret checked after the
    password, and tokens that last one hour. *)
Module AuthTyped.
Section Handler.
Context `{Services} `{AuthServices}.

Definition select_admin : string :=
  "SELECT id, email, password, role FROM admins WHERE email = $1".

Definition handler (env : ProcessEnv) (event : HandlerEvent) (db : Database)
    : Outcome :=
  if negb (String.eqb (httpMethod event) "POST")
  then error_reply db 405 "Method Not Allowed"
  else
    match JSON_parse (body_text event) with
    | None => error_reply db 400 "Invalid request body"
    | Some parsed =>
        match get_member "email" parsed, get_member "password" parsed with
        | Some email, Some password =>
            if negb (json_truthy email) || negb (json_truthy password)
            then error_reply db 400 "Email and password are required"
            else
              let email := default JNull email in
              let password := default JNull password in
              let sent := (select_admin, [email]) in
              match query select_admin [email] db with
              | (None, db') => error_after_query db' sent 500 "Internal server error"
              | (Some [], db') => error_after_query db' sent 401 "Invalid credentials"
              | (Some (user :: _), db') =>
                  match get_member "password" user with
                  | None => error_after_query db' sent 500 "Internal server error"
                  | Some hash =>
                      match bcrypt_compare password hash with
                      | None => error_after_query db' sent 500 "Internal server error"
                      | Some false =>
                          error_after_query db' sent 401 "Invalid credentials"
                      | Some true =>
                          if negb (truthy (JWT_SECRET env))
                          then error_after_query db' sent 500 "Internal server error"
                          else
                            match jwt_sign (member "id" user) (member "role" user)
                                    (JWT_SECRET env) "1h" with
                            | None =>
                                error_after_query db' sent 500 "Internal server error"
                            | Some token =>
                                after_query db' sent 200 (login_body token user)
                            end
                      end
                  end
              end
        | _, _ => error_reply db 400 "Invalid request body"
        end
    end.
End Handler.
End AuthTyped.

(** The version that checks the secret before anything else, with tokens
    that last a day. *)
Module AuthGuarded.
Section Handler.
Context `{Services} `{AuthServices}.

Definition select_admin : string := "SELECT * FROM admins WHERE email = $1".

Definition handler (env : ProcessEnv) (event : HandlerEvent) (db : Database)
    : Outcome :=
  if negb (String.eqb (httpMethod event) "POST")
  then error_reply db 405 "Method not allowed"
  else if negb (truthy (JWT_SECRET env))
  then error_reply db 500 "Internal server error"
  else
    match JSON_parse (body_text event) with
    | None => error_reply db 400 "Invalid request body"
    | Some parsed =>
        match get_member "email" parsed, get_member "password" parsed with
        | Some email, Some password =>
            if negb (json_truthy email) || negb (json_truthy password)
            then error_reply db 400 "Email and password are required"
            else
              let email := default JNull email in
              let password := default JNull password in
              let sent := (select_admin, [email]) in
              match query select_admin [email] db with
              | (None, db') => error_after_query db' sent 500 "Internal server error"
              | (Some [], db') => error_after_query db' sent 401 "Invalid credentials"
              | (Some (user :: _), db') =>
                  match get_member "password" user with
                  | None => error_after_query db' sent 500 "Internal server error"
                  | Some hash =>
                      match bcrypt_compare password hash with
                      | None => error_after_query db' sent 500 "Internal server error"
                      | Some false =>
                          error_after_query db' sent 401 "Invalid credentials"
                      | Some true =>
                          match jwt_sign (member "id" user) (member "role" user)
                                  (JWT_SECRET env) "24h" with
                          | None =>
                              error_after_query db' sent 500 "Internal server error"
                          | Some token =>
                              after_query db' sent 200 (login_body token user)
                          end
                      end
                  end
              end
        | _, _ => error_reply db 400 "Invalid request body"
        end
    end.
End Handler.
End AuthGuarded.

(** The version without a check of the secret, where one [try] covers the
    whole request. *)
Module AuthPlain.
Section Handler.
Context `{Services} `{AuthServices}.

Definition select_admin : string := "SELECT * FROM admins WHERE email = $1".

Definition handler (env : ProcessEnv) (event : HandlerEvent) (db : Database)
    : Outcome :=
  if negb (String.eqb (httpMethod event) "POST")
  then error_reply db 405 "Method not allowed"
  else
    match JSON_parse (body_text event) with
    | None => error_reply db 500 "Internal server error"
    | Some parsed =>
        match get_member "email" parsed, get_member "password" parsed with
        | Some email, Some password =>
            if negb (json_truthy email) || negb (json_truthy password)
            then error_reply db 400 "Email and password are required"
            else
              let email := default JNull email in
              let password := default JNull password in
              let sent := (select_admin, [email]) in
              match query select_admin [email] db with
              | (None, db') => error_after_query db' sent 500 "Internal server error"
              | (Some [], db') => error_after_query db' sent 401 "Invalid credentials"
              | (Some (user :: _), db') =>
                  match get_member "password" user with
                  | None => error_after_query db' sent 500 "Internal server error"
                  | Some hash =>
                      match bcrypt_compare password hash with
                      | None => error_after_query db' sent 500 "Internal server error"
                      | Some false =>
                          error_after_query db' sent 401 "Invalid credentials"
                      | Some true =>
                          match jwt_sign (member "id" user) (member "role" user)
                                  (JWT_SECRET env) "24h" with
                          | None =>
                              error_after_query db' sent 500 "Internal server error"
                          | Some token =>
                              after_query db' sent 200 (login_body token user)
                          end
                      end
                  end
              end
        | _, _ => error_reply db 500 "Internal server error"
        end
    end.
End Handler.
End AuthPlain.

(** ** Looking into the store *)

(** The collection that [loadFromStorage key fallback] would return. *)
Definition peek {T} `{Storable T} (key : string) (fallback : T) (st : LocalStorage) : T :=
  default fallback (st !! key ≫= of_slot).

Definition invoices_in (st : LocalStorage) : list Invoice.t :=
  peek COLLECTION_KEYS.INVOICES [] st.
Definition versions_in (st : LocalStorage) : list DatasetVersion.t :=
  peek COLLECTION_KEYS.VERSIONS [] st.
Definition audit_logs_in (st : LocalStorage) : list AuditLogSchema.t :=
  peek COLLECTION_KEYS.AUDIT_LOGS [] st.
Definition admins_in `{Constants} (st : LocalStorage) : list AdminUser.t :=
  peek COLLECTION_KEYS.ADMINS MOCK_ADMIN_TEAM st.

(** The test [a => a.id === id] of [Admins.getById]. *)
Definition has_id (userId : string) (a : AdminUser.t) : bool :=
  String.eqb (AdminUser.id a) userId.

(** The test [i => i.id === id] of [Invoices.getById] and [Invoices.update]. *)
Definition invoice_has_id (id : string) (i : Invoice.t) : bool :=
  String.eqb (Invoice.id i) id.

(** The error [saveToStorage] throws when the audit log cannot be stored. *)
Definition audit_write_failure : exn :=
  Error "Storage quota exceeded or unavailable for hcp_audit_logs".

(** A computation ends by throwing. *)
Definition throws {A} (m : JS A) (st : LocalStorage) : Prop :=
  ∃ e, (m st).1 = Throw e.

(** A run of audited actions, one [createAuditLog] after the other. *)
Fixpoint record_all `{Medium} (entries : list (Readings * AuditLogInput.t)) : JS unit :=
  match entries with
  | [] => mret ()
  | (r, log) :: rest => createAuditLog r log;; record_all rest
  end.

(** The version list [save] writes: the new version in front, the last one
    dropped once there are more than five. *)
Definition retained (version : DatasetVersion.t) (current : list DatasetVersion.t)
    : list DatasetVersion.t :=
  let updated := version :: current in
  if (5 <? length updated)%nat then removelast updated else updated.

(** Two admin records that agree on everything but [status]. *)
Definition with_status (s : AdminStatus) (a : AdminUser.t) : AdminUser.t :=
  {| AdminUser.id := AdminUser.id a;
     AdminUser.name := AdminUser.name a;
     AdminUser.email := AdminUser.email a;
     AdminUser.role := AdminUser.role a;
     AdminUser.assignedCodes := AdminUser.assignedCodes a;
     AdminUser.lastLogin := AdminUser.lastLogin a;
     AdminUser.status := s |}.

(** The merge of a record and partial fields as the specification words it,
    one field at a time: a field that the partial fields give has the given
    value, a field they leave out has the existing record's value. *)
Definition merged_field {A} (existing : A) (given : option A) (merged : A) : Prop :=
  match given with
  | Some v => merged = v
  | None => merged = existing
  end.

Definition merge_of (existing : Invoice.t) (updates : PartialInvoice.t)
    (merged : Invoice.t) : Prop :=
  merged_field (Invoice.id existing) (PartialInvoice.id updates) (Invoice.id merged) ∧
  merged_field (Invoice.invoiceNumber existing) (PartialInvoice.invoiceNumber updates)
    (Invoice.invoiceNumber merged) ∧
  merged_field (Invoice.partnerCode existing) (PartialInvoice.partnerCode updates)
    (Invoice.partnerCode merged) ∧
  merged_field (Invoice.billingPeriod existing) (PartialInvoice.billingPeriod updates)
    (Invoice.billingPeriod merged) ∧
  merged_field (Invoice.issueDate existing) (PartialInvoice.issueDate updates)
    (Invoice.issueDate merged) ∧
  merged_field (Invoice.dueDate existing) (PartialInvoice.dueDate updates)
    (Invoice.dueDate merged) ∧
  merged_field (Invoice.currency existing) (PartialInvoice.currency updates)
    (Invoice.currency merged) ∧
  merged_field (Invoice.items existing) (PartialInvoice.items updates)
    (Invoice.items merged) ∧
  merged_field (Invoice.subtotal existing) (PartialInvoice.subtotal updates)
    (Invoice.subtotal merged) ∧
  merged_field (Invoice.taxRate existing) (PartialInvoice.taxRate updates)
    (Invoice.taxRate merged) ∧
  merged_field (Invoice.taxAmount existing) (PartialInvoice.taxAmount updates)
    (Invoice.taxAmount merged) ∧
  merged_field (Invoice.totalAmount existing) (PartialInvoice.totalAmount updates)
    (Invoice.totalAmount merged) ∧
  merged_field (Invoice.status existing) (PartialInvoice.status updates)
    (Invoice.status merged) ∧
  merged_field (Invoice.notes existing) (PartialInvoice.notes updates)
    (Invoice.notes merged) ∧
  merged_field (Invoice.publicMemo existing) (PartialInvoice.publicMemo updates)
    (Invoice.publicMemo merged) ∧
  merged_field (Invoice.paidAt existing) (Some <$> PartialInvoice.paidAt updates)
    (Invoice.paidAt merged) ∧
  merged_field (Invoice.transactionReference existing)
    (Some <$> PartialInvoice.transactionReference updates)
    (Invoice.transactionReference merged).

Definition differ_in_status_only (a b : AdminUser.t) : Prop :=
  b = with_status (AdminUser.status b) a.

(** ** Concrete scenarios *)

(** A medium that never refuses a write. *)
Definition roomy : Medium := λ _ _ _, true.

(** An engine for the scenarios: their numbers have few digits, and those
    every engine writes in plain decimal. *)
Definition decimal : Engine := λ n, pretty n.

(** A medium with a quota, counted in stored entries: a write goes through
    when the written collection and every other slot together stay within
    the quota. *)
Definition slot_weight (v : stored) : nat :=
  match v with
  | StoredVersions l => length l
  | StoredInvoices l => length l
  | StoredAdmins l => length l
  | StoredAuditLogs l => length l
  | Unparsable text => String.length text
  end.

Definition quota_medium (quota : nat) : Medium := λ st key v,
  (map_fold (λ _ w acc, slot_weight w + acc) 0 (delete key st) + slot_weight v
   <=? quota)%nat.

Definition noon : Readings :=
  {| date_now := 1762084800000%Z; random_suffix := "k3j9x0q2m";
     iso_timestamp := "2025-11-02T12:00:00.000Z" |}.

Definition invoice_i1 : Invoice.t :=
  {| Invoice.id := "i1"; Invoice.invoiceNumber := "INV-2024-001";
     Invoice.partnerCode := "P1"; Invoice.billingPeriod := "2024-10";
     Invoice.issueDate := "2024-11-01"; Invoice.dueDate := "2024-11-30";
     Invoice.currency := USD; Invoice.items := [];
     Invoice.subtotal := 100%Z; Invoice.taxRate := 0%Z; Invoice.taxAmount := 0%Z;
     Invoice.totalAmount := 100%Z; Invoice.status := Draft; Invoice.notes := "";
     Invoice.publicMemo := ""; Invoice.paidAt := None;
     Invoice.transactionReference := None |}.

Definition invoice_i2 : Invoice.t :=
  {| Invoice.id := "i2"; Invoice.invoiceNumber := "INV-2024-002";
     Invoice.partnerCode := "P2"; Invoice.billingPeriod := "2024-10";
     Invoice.issueDate := "2024-11-01"; Invoice.dueDate := "2024-11-30";
     Invoice.currency := EUR; Invoice.items := [];
     Invoice.subtotal := 250%Z; Invoice.taxRate := 0%Z; Invoice.taxAmount := 0%Z;
     Invoice.totalAmount := 250%Z; Invoice.status := Sent; Invoice.notes := "";
     Invoice.publicMemo := ""; Invoice.paidAt := None;
     Invoice.transactionReference := None |}.

Definition mark_paid : PartialInvoice.t :=
  {| PartialInvoice.id := None; PartialInvoice.invoiceNumber := None;
     PartialInvoice.partnerCode := None; PartialInvoice.billingPeriod := None;
     PartialInvoice.issueDate := None; PartialInvoice.dueDate := None;
     PartialInvoice.currency := None; PartialInvoice.items := None;
     PartialInvoice.subtotal := None; PartialInvoice.taxRate := None;
     PartialInvoice.taxAmount := None; PartialInvoice.totalAmount := None;
     PartialInvoice.status := Some Paid; PartialInvoice.notes := None;
     PartialInvoice.publicMemo := None;
     PartialInvoice.paidAt := Some "2024-11-15T09:30:00.000Z";
     PartialInvoice.transactionReference := None |}.

(** [invoice_i1] once it is marked as paid. *)
Definition invoice_i1_paid : Invoice.t :=
  {| Invoice.id := "i1"; Invoice.invoiceNumber := "INV-2024-001";
     Invoice.partnerCode := "P1"; Invoice.billingPeriod := "2024-10";
     Invoice.issueDate := "2024-11-01"; Invoice.dueDate := "2024-11-30";
     Invoice.currency := USD; Invoice.items := [];
     Invoice.subtotal := 100%Z; Invoice.taxRate := 0%Z; Invoice.taxAmount := 0%Z;
     Invoice.totalAmount := 100%Z; Invoice.status := Paid; Invoice.notes := "";
     Invoice.publicMemo := ""; Invoice.paidAt := Some "2024-11-15T09:30:00.000Z";
     Invoice.transactionReference := None |}.

Definition two_invoices : LocalStorage :=
  {[ COLLECTION_KEYS.INVOICES := StoredInvoices [invoice_i2; invoice_i1] ]}.

Definition version_n (n : Z) : DatasetVersion.t :=
  {| DatasetVersion.id := "v" +:+ pretty n;
     DatasetVersion.fileName := "developers.csv";
     DatasetVersion.recordCount := n |}.

Definition five_versions : LocalStorage :=
  {[ COLLECTION_KEYS.VERSIONS := StoredVersions (version_n <$> [5; 4; 3; 2; 1]%Z) ]}.

Definition admin_hq : AdminUser.t :=
  {| AdminUser.id := "a1"; AdminUser.name := "Hana"; AdminUser.email := "hana@hq.example";
     AdminUser.role := SuperAdminHQ; AdminUser.assignedCodes := [];
     AdminUser.lastLogin := "2024-11-01"; AdminUser.status := Active |}.

Definition admin_local : AdminUser.t :=
  {| AdminUser.id := "a2"; AdminUser.name := "Luis"; AdminUser.email := "luis@p1.example";
     AdminUser.role := CommunityAdminLocal; AdminUser.assignedCodes := ["P1"; "P3"];
     AdminUser.lastLogin := "2024-10-20"; AdminUser.status := Disabled |}.

Definition no_mock_team : Constants := [].

Definition roster : LocalStorage :=
  {[ COLLECTION_KEYS.ADMINS := StoredAdmins [admin_hq; admin_local] ]}.

Definition roster_all_invited : LocalStorage :=
  {[ COLLECTION_KEYS.ADMINS :=
       StoredAdmins [with_status Invited admin_hq; with_status Invited admin_local] ]}.

Definition login_entry (n : nat) : Readings * AuditLogInput.t :=
  ({| date_now := (1762084800000 + Z.of_nat n)%Z; random_suffix := "k3j9x0q2m";
      iso_timestamp := "2025-11-02T12:00:00.000Z" |},
   {| AuditLogInput.userId := "a1"; AuditLogInput.userEmail := "hana@hq.example";
      AuditLogInput.action := LOGIN; AuditLogInput.entityType := E_admin;
      AuditLogInput.entityId := None; AuditLogInput.details := "Signed in";
      AuditLogInput.partnerCode := None |}).

(** A deployment for the gateway examples.  The parser knows the request
    bodies of the examples, the verifier knows one secret and two tokens,
    and the database keeps the statements it has run. *)
Definition quoted (s : string) : string :=
  String "034"%char s +:+ String "034"%char "".

(** [{"type":"invoices","data":{"id":"i1","partnerCode":"P1"}}] *)
Definition invoice_body_text : string :=
  "{" +:+ quoted "type" +:+ ":" +:+ quoted "invoices" +:+ "," +:+ quoted "data"
  +:+ ":{" +:+ quoted "id" +:+ ":" +:+ quoted "i1" +:+ "," +:+ quoted "partnerCode"
  +:+ ":" +:+ quoted "P1" +:+ "}}".

Definition invoice_body : json :=
  JObj [("type", JStr "invoices");
        ("data", JObj [("id", JStr "i1"); ("partnerCode", JStr "P1")])].

(** [{"type":"invoices","data":{"bad col":1}}] *)
Definition bad_column_body_text : string :=
  "{" +:+ quoted "type" +:+ ":" +:+ quoted "invoices" +:+ "," +:+ quoted "data"
  +:+ ":{" +:+ quoted "bad col" +:+ ":1}}".

Definition bad_column_body : json :=
  JObj [("type", JStr "invoices"); ("data", JObj [("bad col", JNum 1%Z)])].

Definition sample_services : Services :=
  {| JSON_parse := λ text,
       if String.eqb text invoice_body_text then Some invoice_body
       else if String.eqb text bad_column_body_text then Some bad_column_body
       else if String.eqb text "{}" then Some (JObj [])
       else None;
     jwt_verify := λ token secret,
       if String.eqb secret "s3cret"
       then if String.eqb token "fresh.token" then Verified
            else if String.eqb token "stale.token" then TokenExpiredError
            else JsonWebTokenError "jwt malformed"
       else JsonWebTokenError "invalid signature";
     engine := decimal;
     Database := list (string * list json);
     query := λ text params db,
       (Some [JObj [("id", JStr "i1")]], (db ++ [(text, params)])%list);
     inherited_text := λ member, "[object Object]" |}.

Definition untouched : @Database sample_services := @nil (string * list json).

Definition configured : ProcessEnv := {| JWT_SECRET := Some "s3cret" |}.

Definition request (method : string) (authorization : option string)
    (text : option string) : HandlerEvent :=
  {| headers := match authorization with
                | Some a => {[ "authorization" := a ]}
                | None => ∅
                end;
     httpMethod := method;
     queryStringParameters := Some {[ "type" := "invoices" ]};
     body := text |}.


(** ** Further operations of [src/db/operations.ts] and [localDatabase.ts] *)

#[global] Instance AuditAction_eq_dec : EqDecision AuditAction.
Proof. solve_decision. Defined.
#[global] Instance AuditEntity_eq_dec : EqDecision AuditEntity.
Proof. solve_decision. Defined.


(** The [filters] argument of [getAuditLogs].  A [Date] is its time value,
    [None] when the date is invalid; an absent field is an outer [None]. *)
Module AuditFilters.
Record t := mk {
  userId : option string;
  entityType : option AuditEntity;
  action : option AuditAction;
  partnerCode : option string;
  startDate : option (option Z);
  endDate : option (option Z)
}.
End AuditFilters.




(** The entry [DatasetVersions.delete] hands to [createAuditLog]. *)
Definition delete_entry (id : string) (version : DatasetVersion.t) (userId : string)
    : AuditLogInput.t :=
  {| AuditLogInput.userId := userId;
     AuditLogInput.userEmail := "system";
     AuditLogInput.action := DELETE;
     AuditLogInput.entityType := E_developer;
     AuditLogInput.entityId := Some id;
     AuditLogInput.details := "Deleted dataset: " +:+ DatasetVersion.fileName version;
     AuditLogInput.partnerCode := None |}.

(** [DatasetVersions.delete] *)
Definition DatasetVersions_delete `{Medium} (r : Readings) (id : string)
    (userId : option string) : JS unit :=
  let userId := default "system" userId in
  current ← DatasetVersions.getAll;
  let version := find (λ v, String.eqb (DatasetVersion.id v) id) current in
  let updated := filter (λ v, DatasetVersion.id v ≠ id) current in
  saveToStorage COLLECTION_KEYS.VERSIONS updated;;
  match version with
  | Some version => createAuditLog r (delete_entry id version userId)
  | None => mret ()
  end.

(** The exported instance [LocalDB] of [LocalDatabaseService]: the methods
    beside the two dataset ones above. *)
Module LocalDB.
Module KEYS.
Definition INVOICES := "hcp_invoices".
Definition ADMINS := "hcp_admins".
End KEYS.

Section Ops.
Context `{Medium}.

(** No [try] here: a refused [setItem] escapes as it is. *)
Definition deleteDatasetVersion (id : string) : JS unit :=
  current ← LocalDatabaseService.getDatasetVersions;
  let updated := filter (λ v, DatasetVersion.id v ≠ id) current in
  setItem LocalDatabaseService.KEYS.VERSIONS (to_slot updated).

Definition saveItem {T} `{Storable T} (key : string) (data : T) : JS unit :=
  try_catch (setItem key (to_slot data)) (λ _, mret ()).

Definition loadItem {T} `{Storable T} (key : string) (fallback : T) : JS T :=
  try_catch
    (item ← getItem key;
     match item with
     | Some v => match of_slot v with
                 | Some data => mret data
                 | None => throw (Error "SyntaxError")
                 end
     | None => mret fallback
     end)
    (λ _, mret fallback).

Definition getAdmins `{Constants} : JS (list AdminUser.t) :=
  loadItem KEYS.ADMINS MOCK_ADMIN_TEAM.
Definition saveAdmins (admins : list AdminUser.t) : JS unit :=
  saveItem KEYS.ADMINS admins.

Definition getInvoices : JS (list Invoice.t) := loadItem KEYS.INVOICES [].
Definition saveInvoices (invoices : list Invoice.t) : JS unit :=
  saveItem KEYS.INVOICES invoices.
End Ops.
End LocalDB.

(** What stays under a key when the slot is left alone or overwritten. *)
Definition other_keys_kept (keys : list string) (st st' : LocalStorage) : Prop :=
  ∀ key, key ∉ keys → st' !! key = st !! key.


(** A key that holds nothing a reader can use: no entry, or text that does
    not parse. *)
Definition unreadable (key : string) (st : LocalStorage) : Prop :=
  st !! key = None ∨ ∃ text, st !! key = Some (Unparsable text).

Definition garbled : LocalStorage :=
  {[ COLLECTION_KEYS.INVOICES := Unparsable "[{"; COLLECTION_KEYS.AUDIT_LOGS := Unparsable "" ]}.





(** The [type] parameter of the query string. *)
Definition type_parameter (event : HandlerEvent) : option string :=
  queryStringParameters event ≫= (λ q, q !! "type").

(** A second deployment, whose parser knows more request bodies. *)

(** [{"type":"invoices","data":[{"id":"i1"}]}] *)
Definition array_body_text : string :=
  "{" +:+ quoted "type" +:+ ":" +:+ quoted "invoices" +:+ "," +:+ quoted "data"
  +:+ ":[{" +:+ quoted "id" +:+ ":" +:+ quoted "i1" +:+ "}]}".

Definition array_body : json :=
  JObj [("type", JStr "invoices"); ("data", JArr [JObj [("id", JStr "i1")]])].

(** [{"type":"toString","data":{"id":"i1"}}] *)
Definition inherited_type_body_text : string :=
  "{" +:+ quoted "type" +:+ ":" +:+ quoted "toString" +:+ "," +:+ quoted "data"
  +:+ ":{" +:+ quoted "id" +:+ ":" +:+ quoted "i1" +:+ "}}".

Definition inherited_type_body : json :=
  JObj [("type", JStr "toString"); ("data", JObj [("id", JStr "i1")])].

(** [{"type":"users","data":{"id":"i1"}}] *)
Definition unknown_type_body_text : string :=
  "{" +:+ quoted "type" +:+ ":" +:+ quoted "users" +:+ "," +:+ quoted "data"
  +:+ ":{" +:+ quoted "id" +:+ ":" +:+ quoted "i1" +:+ "}}".

Definition unknown_type_body : json :=
  JObj [("type", JStr "users"); ("data", JObj [("id", JStr "i1")])].

(** [{"type":{"toString":1},"data":{"bad col":1}}] *)
Definition masked_type_body_text : string :=
  "{" +:+ quoted "type" +:+ ":{" +:+ quoted "toString" +:+ ":1}," +:+ quoted "data"
  +:+ ":{" +:+ quoted "bad col" +:+ ":1}}".

Definition masked_type_body : json :=
  JObj [("type", JObj [("toString", JNum 1%Z)]);
        ("data", JObj [("bad col", JNum 1%Z)])].

(** [{"type":[{"toString":1}],"data":[1]}] *)
Definition masked_array_body_text : string :=
  "{" +:+ quoted "type" +:+ ":[{" +:+ quoted "toString" +:+ ":1}]," +:+ quoted "data"
  +:+ ":[1]}".

Definition masked_array_body : json :=
  JObj [("type", JArr [JObj [("toString", JNum 1%Z)]]); ("data", JArr [JNum 1%Z])].

Definition known_bodies : list (string * json) :=
  [ (invoice_body_text, invoice_body);
    (bad_column_body_text, bad_column_body);
    (array_body_text, array_body);
    (inherited_type_body_text, inherited_type_body);
    (unknown_type_body_text, unknown_type_body);
    (masked_type_body_text, masked_type_body);
    (masked_array_body_text, masked_array_body);
    ("{}", JObj []);
    ("null", JNull) ].

Definition wide_services : Services :=
  {| JSON_parse := λ text,
       snd <$> find (λ entry, String.eqb (fst entry) text) known_bodies;
     jwt_verify := λ token secret,
       if String.eqb secret "s3cret"
       then if String.eqb token "fresh.token" then Verified
            else JsonWebTokenError "jwt malformed"
       else JsonWebTokenError "invalid signature";
     engine := decimal;
     Database := list (string * list json);
     query := λ text params db,
       (Some [JObj [("id", JStr "i1")]], (db ++ [(text, params)])%list);
     inherited_text := λ member, "function " +:+ member +:+ "() { [native code] }" |}.

Definition idle : @Database wide_services := @nil (string * list json).

Definition get_request (type : option string) : HandlerEvent :=
  {| headers := {[ "authorization" := "Bearer fresh.token" ]};
     httpMethod := "GET";
     queryStringParameters :=
       match type with
       | Some t => Some {[ "type" := t ]}
       | None => None
       end;
     body := None |}.

Definition post_request (text : option string) : HandlerEvent :=
  {| headers := {[ "Authorization" := "Bearer fresh.token" ]};
     httpMethod := "POST";
     queryStringParameters := None;
     body := text |}.

(** What an answer says about the statements behind it: at most one was
    sent, exactly one for a 200, none for a 400, 401 or 405. *)
Definition accounted `{Services} (db : Database) (o : Outcome) : Prop :=
  (length (issued o) ≤ 1)%nat ∧
  (statusCode (response o) = 200%Z → length (issued o) = 1%nat) ∧
  (statusCode (response o) ∈ [400; 401; 405]%Z → issued o = [] ∧ database o = db).

(** The INSERT a POST builds for a table and a [data] value. *)
Definition insert_statement (table : string) (data : json) : string * list json :=
  ("INSERT INTO " +:+ table +:+ " (" +:+ String.concat ", " (Object_keys data)
   +:+ ") VALUES (" +:+ placeholders (Object_keys data) +:+ ") RETURNING *",
   Object_values data).

(** A deployment for the login examples: one admin row, one password that
    matches its hash, tokens named after the id they are signed for. *)

(** [{"email":"hana@hq.example","password":"open sesame"}] *)
Definition good_login_text : string :=
  "{" +:+ quoted "email" +:+ ":" +:+ quoted "hana@hq.example" +:+ ","
  +:+ quoted "password" +:+ ":" +:+ quoted "open sesame" +:+ "}".

(** [{"email":"hana@hq.example","password":"guess"}] *)
Definition bad_login_text : string :=
  "{" +:+ quoted "email" +:+ ":" +:+ quoted "hana@hq.example" +:+ ","
  +:+ quoted "password" +:+ ":" +:+ quoted "guess" +:+ "}".

(** [{"email":"nobody@hq.example","password":"guess"}] *)
Definition unknown_login_text : string :=
  "{" +:+ quoted "email" +:+ ":" +:+ quoted "nobody@hq.example" +:+ ","
  +:+ quoted "password" +:+ ":" +:+ quoted "guess" +:+ "}".

Definition login_json (email password : string) : json :=
  JObj [("email", JStr email); ("password", JStr password)].

Definition hana_row : json :=
  JObj [("id", JStr "a1"); ("email", JStr "hana@hq.example");
        ("password", JStr "$2a$10$hash"); ("role", JStr "Super Admin (HQ)")].

Definition login_services : Services :=
  {| JSON_parse := λ text,
       if String.eqb text good_login_text
       then Some (login_json "hana@hq.example" "open sesame")
       else if String.eqb text bad_login_text
       then Some (login_json "hana@hq.example" "guess")
       else if String.eqb text unknown_login_text
       then Some (login_json "nobody@hq.example" "guess")
       else if String.eqb text "{}" then Some (JObj [])
       else None;
     jwt_verify := λ token secret, JsonWebTokenError "jwt malformed";
     engine := decimal;
     Database := nat;
     query := λ text params db,
       match params with
       | [JStr "hana@hq.example"] => (Some [hana_row], S db)
       | _ => (Some [], S db)
       end;
     inherited_text := λ member, "[object Object]" |}.

Definition login_library : AuthServices :=
  {| bcrypt_compare := λ password hash,
       match password, hash with
       | JStr p, Some (JStr h) =>
           Some (String.eqb p "open sesame" && String.eqb h "$2a$10$hash")
       | _, _ => None
       end;
     jwt_sign := λ id role secret expiresIn,
       match secret with
       | Some s => if String.eqb s "" then None
                   else Some ("signed:"
                              +:+ match id with Some (JStr s) => s | _ => "" end
                              +:+ ":" +:+ expiresIn)
       | None => None
       end |}.

Definition login_request (text : option string) : HandlerEvent :=
  {| headers := ∅; httpMethod := "POST"; queryStringParameters := None;
     body := text |}.

Definition unconfigured : ProcessEnv := {| JWT_SECRET := None |}.

(** The one answer a failed login gets. *)
Definition invalid_credentials : HandlerResponse :=
  {| statusCode := 401;
     response_body := Some (JObj [("error", JStr "Invalid credentials")]) |}.

(** An answer that carries a token and a user object without a [password]
    member. *)
Definition hides_password (r : HandlerResponse) : Prop :=
  ∃ token members,
    response_body r = Some (JObj [("token", JStr token); ("user", JObj members)]) ∧
    "password" ∉ members.*1.

(** How a login handler with the statement [sql] and the token lifetime
    [expiry] can have come to an outcome: the request was a POST whose body
    gave an email and a password, the statement found a row for the email,
    [bcrypt.compare] accepted the password against the row's hash, and the
    token in the answer was signed for the row's id and role. *)
Definition password_matched `{Services} `{AuthServices} (sql expiry : string)
    (env : ProcessEnv) (event : HandlerEvent) (db : Database) (o : Outcome) : Prop :=
  httpMethod event = "POST" ∧
  ∃ parsed email password user others db' hash token,
    JSON_parse (body_text event) = Some parsed ∧
    get_member "email" parsed = Some (Some email) ∧
    get_member "password" parsed = Some (Some password) ∧
    query sql [email] db = (Some (user :: others), db') ∧
    get_member "password" user = Some hash ∧
    bcrypt_compare password hash = Some true ∧
    jwt_sign (member "id" user) (member "role" user) (JWT_SECRET env) expiry
      = Some token ∧
    o = after_query db' (sql, [email]) 200 (login_body token user).


(** A login handler refuses alike: every 401 it gives is the answer
    [invalid_credentials], and that is what it gives both when the
    statement [sql] finds no row for the email and when it finds one whose
    hash [bcrypt.compare] does not accept. *)
Definition refuses_alike `{Services} `{AuthServices} (sql : string)
    (handler : ProcessEnv → HandlerEvent → Database → Outcome)
    (env : ProcessEnv) (event : HandlerEvent) (db : Database) : Prop :=
  (statusCode (response (handler env event db)) = 401%Z →
     response (handler env event db) = invalid_credentials) ∧
  (∀ parsed email password,
     httpMethod event = "POST" →
     JSON_parse (body_text event) = Some parsed →
     get_member "email" parsed = Some (Some email) →
     get_member "password" parsed = Some (Some password) →
     json_truthy (Some email) = true → json_truthy (Some password) = true →
     (∀ db', query sql [email] db = (Some [], db') →
        handler env event db =
          error_after_query db' (sql, [email]) 401 "Invalid credentials") ∧
     (∀ user others db' hash,
        query sql [email] db = (Some (user :: others), db') →
        get_member "password" user = Some hash →
        bcrypt_compare password hash = Some false →
        handler env event db =
          error_after_query db' (sql, [email]) 401 "Invalid credentials")).

(** * Properties *)

(** ** How the storage layer runs *)

Ltac js_unfold := unfold mbind, JS_bind, mret, JS_ret, try_catch, throw in *.

Lemma key_distinct_versions_audit : COLLECTION_KEYS.VERSIONS ≠ COLLECTION_KEYS.AUDIT_LOGS.
Proof. discriminate. Qed.

Lemma key_distinct_invoices_audit : COLLECTION_KEYS.INVOICES ≠ COLLECTION_KEYS.AUDIT_LOGS.
Proof. discriminate. Qed.

Section StorageFacts.
Context `{Medium}.
Context {T : Type} `{Storable T}.

Lemma loadFromStorage_peek (key : string) (fallback : T) (st : LocalStorage) :
  loadFromStorage key fallback st = (Normal (peek key fallback st), st).
Proof.
  unfold loadFromStorage, peek, getItem. js_unfold.
  destruct (st !! key) as [v|]; simpl; [destruct (of_slot v)|]; reflexivity.
Qed.

Lemma saveToStorage_accepted (key : string) (data : T) (st : LocalStorage) :
  accepts st key (to_slot data) = true →
  saveToStorage key data st = (Normal (), <[key := to_slot data]> st).
Proof. intros Hacc. unfold saveToStorage, setItem. js_unfold. by rewrite Hacc. Qed.

Lemma saveToStorage_rejected (key : string) (data : T) (st : LocalStorage) :
  accepts st key (to_slot data) = false →
  saveToStorage key data st =
    (Throw (Error ("Storage quota exceeded or unavailable for " +:+ key)), st).
Proof. intros Hrej. unfold saveToStorage, setItem. js_unfold. by rewrite Hrej. Qed.

(** Whatever the medium decides, [saveToStorage] either stores the data
    or leaves the store as it was. *)
Lemma saveToStorage_cases (key : string) (data : T) (st : LocalStorage) :
  saveToStorage key data st = (Normal (), <[key := to_slot data]> st) ∨
  saveToStorage key data st =
    (Throw (Error ("Storage quota exceeded or unavailable for " +:+ key)), st).
Proof.
  destruct (accepts st key (to_slot data)) eqn:E;
    [left; by apply saveToStorage_accepted | right; by apply saveToStorage_rejected].
Qed.

Lemma peek_insert_eq (key : string) (fallback data : T) (st : LocalStorage) :
  peek key fallback (<[key := to_slot data]> st) = data.
Proof. unfold peek. rewrite lookup_insert_eq. simpl. by rewrite of_to_slot. Qed.

Lemma peek_insert_ne (key key' : string) (fallback : T) (v : stored)
    (st : LocalStorage) :
  key ≠ key' → peek key' fallback (<[key := v]> st) = peek key' fallback st.
Proof. intros Hne. unfold peek. by rewrite lookup_insert_ne. Qed.

(** After a [saveToStorage] that returns, the key reads as the data. *)
Lemma peek_after_save (key : string) (data fallback : T) (st st1 : LocalStorage) :
  saveToStorage key data st = (Normal (), st1) →
  peek key fallback st1 = data.
Proof.
  intros Hsave.
  destruct (saveToStorage_cases key data st) as [E | E];
    rewrite E in Hsave; [|discriminate].
  assert (st1 = <[key := to_slot data]> st) as -> by congruence.
  apply peek_insert_eq.
Qed.
End StorageFacts.

Section AuditFacts.
Context `{Medium}.

Lemma createAuditLog_run (r : Readings) (log : AuditLogInput.t) (st : LocalStorage) :
  createAuditLog r log st =
    saveToStorage COLLECTION_KEYS.AUDIT_LOGS
      (take 1000 (newLog r log :: audit_logs_in st)) st.
Proof.
  unfold createAuditLog. js_unfold. by rewrite loadFromStorage_peek.
Qed.

(** An audit write touches no key but the audit log's. *)
Lemma createAuditLog_other_keys (r : Readings) (log : AuditLogInput.t)
    (st : LocalStorage) (key : string) :
  key ≠ COLLECTION_KEYS.AUDIT_LOGS →
  (createAuditLog r log st).2 !! key = st !! key.
Proof.
  intros Hne. rewrite createAuditLog_run.
  destruct (saveToStorage_cases COLLECTION_KEYS.AUDIT_LOGS
              (take 1000 (newLog r log :: audit_logs_in st)) st) as [-> | ->]; simpl.
  - by rewrite lookup_insert_ne.
  - done.
Qed.

Lemma createAuditLog_throws_iff (r : Readings) (log : AuditLogInput.t)
    (st : LocalStorage) :
  throws (createAuditLog r log) st ↔
  accepts st COLLECTION_KEYS.AUDIT_LOGS
    (StoredAuditLogs (take 1000 (newLog r log :: audit_logs_in st))) = false.
Proof.
  unfold throws. rewrite createAuditLog_run.
  destruct (accepts st COLLECTION_KEYS.AUDIT_LOGS
              (StoredAuditLogs (take 1000 (newLog r log :: audit_logs_in st)))) eqn:E.
  - rewrite saveToStorage_accepted by exact E. simpl.
    split; [intros [e He]; discriminate | discriminate].
  - rewrite saveToStorage_rejected by exact E. simpl. split; eauto.
Qed.
End AuditFacts.

(** ** Access control *)

Lemma is_super_admin (r : AdminRole) :
  String.eqb (role_literal r) "Super Admin (HQ)" = true ↔ r = SuperAdminHQ.
Proof. destruct r; simpl; split; intros E; done. Qed.

Lemma includes_elem_of (l : list string) (x : string) : includes l x = true ↔ x ∈ l.
Proof.
  unfold includes. rewrite existsb_exists. split.
  - intros (y & Hin & Heq). apply String.eqb_eq in Heq as ->.
    by apply list_elem_of_In.
  - intros Hin. exists x. split; [by apply list_elem_of_In | apply String.eqb_refl].
Qed.

Section AccessControl.
Context `{Constants}.

Lemma getById_run (userId : string) (st : LocalStorage) :
  Admins.getById userId st = (Normal (find (has_id userId) (admins_in st)), st).
Proof.
  unfold Admins.getById, Admins.getAll. js_unfold.
  by rewrite loadFromStorage_peek.
Qed.

Lemma hasAccess_run (userId partnerCode : string) (st : LocalStorage) :
  Admins.hasAccess userId partnerCode st =
    (Normal match find (has_id userId) (admins_in st) with
            | None => false
            | Some a =>
                if String.eqb (role_literal (AdminUser.role a)) "Super Admin (HQ)"
                then true
                else includes (AdminUser.assignedCodes a) partnerCode
            end, st).
Proof.
  unfold Admins.hasAccess. js_unfold. rewrite getById_run.
  destruct (find _ _) as [a|]; [|done].
  by destruct (String.eqb _ _).
Qed.

(** C2.  [hasAccess] answers [false] for an id that no admin record
    carries, [true] for every partner code when the record found for the
    actor has the role 'Super Admin (HQ)', and otherwise [true] exactly
    when the partner code is among the record's [assignedCodes].  The
    record found is one of the stored admins with that id, and one is
    found whenever such an admin exists. *)
Theorem hasAccess_spec (userId partnerCode : string) (st : LocalStorage) :
  ((∀ a, a ∈ admins_in st → AdminUser.id a ≠ userId) →
     Admins.hasAccess userId partnerCode st = (Normal false, st)) ∧
  (∀ a, Admins.getById userId st = (Normal (Some a), st) →
     AdminUser.role a = SuperAdminHQ →
     Admins.hasAccess userId partnerCode st = (Normal true, st)) ∧
  (∀ a, Admins.getById userId st = (Normal (Some a), st) →
     AdminUser.role a ≠ SuperAdminHQ →
     ∃ b, Admins.hasAccess userId partnerCode st = (Normal b, st) ∧
          (b = true ↔ partnerCode ∈ AdminUser.assignedCodes a)) ∧
  (∀ a, a ∈ admins_in st → AdminUser.id a = userId →
     ∃ a', Admins.getById userId st = (Normal (Some a'), st) ∧
           a' ∈ admins_in st ∧ AdminUser.id a' = userId).
Proof.
  rewrite hasAccess_run, getById_run. repeat split.
  - intros Hnone. destruct (find _ _) as [a|] eqn:Hfind; [|done].
    apply find_some in Hfind as [Hin Hid].
    apply String.eqb_eq in Hid. apply list_elem_of_In in Hin.
    by destruct (Hnone a Hin).
  - intros a [= ->] Hrole.
    apply is_super_admin in Hrole. by rewrite Hrole.
  - intros a [= ->] Hrole.
    destruct (String.eqb (role_literal _) _) eqn:E.
    + by apply is_super_admin in E.
    + eexists. split; [reflexivity | apply includes_elem_of].
  - intros a Hin Hid.
    destruct (find _ _) as [a'|] eqn:Hfind.
    + exists a'. apply find_some in Hfind as [Hin' Hid'].
      apply String.eqb_eq in Hid'. apply list_elem_of_In in Hin'. done.
    + apply list_elem_of_In in Hin.
      pose proof (find_none _ _ Hfind a Hin) as Hno.
      unfold has_id in Hno. rewrite Hid, String.eqb_refl in Hno. done.
Qed.

Lemma find_has_id_status (userId : string) (l1 l2 : list AdminUser.t) :
  Forall2 differ_in_status_only l1 l2 →
  option_Forall2 differ_in_status_only
    (find (has_id userId) l1) (find (has_id userId) l2).
Proof.
  induction 1 as [|a b l1 l2 Hab _ IH]; simpl; [constructor|].
  assert (has_id userId b = has_id userId a) as ->.
  { unfold has_id. rewrite Hab. reflexivity. }
  destruct (has_id userId a); [by constructor | exact IH].
Qed.
End AccessControl.

(** C10.  The [status] field plays no part in [hasAccess]: two stores
    whose admin rosters agree record by record on everything but [status]
    give the same answer for every actor and partner code; in particular
    setting any stored admin's status (to 'Disabled', say) leaves every
    answer as it was. *)
Theorem hasAccess_ignores_status `{Constants} (userId partnerCode : string)
    (st1 st2 : LocalStorage) :
  (Forall2 differ_in_status_only (admins_in st1) (admins_in st2) →
     (Admins.hasAccess userId partnerCode st1).1 =
     (Admins.hasAccess userId partnerCode st2).1) ∧
  (∀ (k : nat) (a : AdminUser.t) (s : AdminStatus),
     admins_in st1 !! k = Some a →
     (Admins.hasAccess userId partnerCode
        (<[COLLECTION_KEYS.ADMINS :=
             StoredAdmins (<[k := with_status s a]> (admins_in st1))]> st1)).1 =
     (Admins.hasAccess userId partnerCode st1).1).
Proof.
  assert (∀ sa sb, Forall2 differ_in_status_only (admins_in sa) (admins_in sb) →
            (Admins.hasAccess userId partnerCode sa).1 =
            (Admins.hasAccess userId partnerCode sb).1) as Hgen.
  { intros sa sb Hrel. rewrite !hasAccess_run. simpl. f_equal.
    destruct (find_has_id_status userId _ _ Hrel) as [a b Hab|]; [|done].
    rewrite Hab. reflexivity. }
  split; [apply Hgen|].
  intros k a s Hk. symmetry. apply Hgen.
  unfold admins_in at 2, peek. rewrite lookup_insert_eq. simpl.
  apply Forall2_same_length_lookup. split; [by rewrite length_insert|].
  intros i x y Hx Hy.
  destruct (decide (i = k)) as [->|Hne].
  - rewrite list_lookup_insert_eq in Hy by (by eapply lookup_lt_Some).
    rewrite Hk in Hx. injection Hx as <-. injection Hy as <-. reflexivity.
  - rewrite list_lookup_insert_ne in Hy by done.
    rewrite Hx in Hy. injection Hy as <-. by destruct x.
Qed.

Lemma hasAccess_spec_witness :
  @Admins.hasAccess no_mock_team "nobody" "P1" roster = (Normal false, roster) ∧
  @Admins.hasAccess no_mock_team "a1" "P9" roster = (Normal true, roster) ∧
  (∃ b, @Admins.hasAccess no_mock_team "a2" "P1" roster = (Normal b, roster) ∧
        (b = true ↔ "P1" ∈ ["P1"; "P3"])).
Proof.
  split; [|split].
  - apply (@hasAccess_spec no_mock_team "nobody" "P1" roster).
    intros a Ha. change (a ∈ [admin_hq; admin_local]) in Ha.
    apply list_elem_of_In in Ha. simpl in Ha.
    destruct Ha as [<- | [<- | []]]; discriminate.
  - apply (proj1 (proj2 (@hasAccess_spec no_mock_team "a1" "P9" roster)) admin_hq).
    + vm_compute; reflexivity.
    + reflexivity.
  - apply (proj1 (proj2 (proj2 (@hasAccess_spec no_mock_team "a2" "P1" roster)))
             admin_local).
    + vm_compute; reflexivity.
    + discriminate.
Defined.

Lemma hasAccess_ignores_status_witness :
  (@Admins.hasAccess no_mock_team "a2" "P1" roster).1 =
  (@Admins.hasAccess no_mock_team "a2" "P1" roster_all_invited).1 ∧
  (@Admins.hasAccess no_mock_team "a2" "P1"
     (<[COLLECTION_KEYS.ADMINS :=
          StoredAdmins (<[1 := with_status Active admin_local]>
                          (@admins_in no_mock_team roster))]> roster)).1 =
  (@Admins.hasAccess no_mock_team "a2" "P1" roster).1.
Proof.
  split.
  - apply (proj1 (@hasAccess_ignores_status no_mock_team "a2" "P1" roster
                    roster_all_invited)).
    change (Forall2 differ_in_status_only [admin_hq; admin_local]
              [with_status Invited admin_hq; with_status Invited admin_local]).
    repeat constructor.
  - apply (proj2 (@hasAccess_ignores_status no_mock_team "a2" "P1" roster roster)
             1 admin_local Active).
    vm_compute; reflexivity.
Defined.

(** ** Sequencing *)

Lemma bind_normal {A B} (m : JS A) (k : A → JS B) (st st1 : LocalStorage) (a : A) :
  m st = (Normal a, st1) → (m ≫= k) st = k a st1.
Proof. intros E. js_unfold. by rewrite E. Qed.

Lemma bind_throw {A B} (m : JS A) (k : A → JS B) (st st1 : LocalStorage) (e : exn) :
  m st = (Throw e, st1) → (m ≫= k) st = (Throw e, st1).
Proof. intros E. js_unfold. by rewrite E. Qed.

Lemma peek_after_audit `{Medium} {T} `{Storable T} (r : Readings)
    (log : AuditLogInput.t) (key : string) (fallback : T) (st : LocalStorage) :
  key ≠ COLLECTION_KEYS.AUDIT_LOGS →
  peek key fallback (createAuditLog r log st).2 = peek key fallback st.
Proof. intros Hne. unfold peek. by rewrite createAuditLog_other_keys. Qed.

(** ** [findIndex] *)

Lemma findIndex_none {A} (p : A → bool) (l : list A) :
  (∀ x, x ∈ l → p x = false) → findIndex p l = None.
Proof.
  induction l as [|y l IH]; intros Hall; simpl; [done|].
  rewrite (Hall y) by left.
  rewrite IH; [done|]. intros x Hx. apply Hall. by right.
Qed.

Lemma findIndex_first {A} (p : A → bool) (l : list A) (k : nat) (x : A) :
  l !! k = Some x → p x = true →
  (∀ j y, j < k → l !! j = Some y → p y = false) →
  findIndex p l = Some k.
Proof.
  revert k. induction l as [|y l IH]; intros k Hk Hp Hbefore; [done|].
  destruct k as [|k]; simpl in *.
  - injection Hk as ->. by rewrite Hp.
  - rewrite (Hbefore 0 y) by (done || lia).
    rewrite (IH k); [done | done | done |].
    intros j z Hj Hz. apply (Hbefore (S j) z); [lia | done].
Qed.

(** ** Invoices *)

Section InvoiceFacts.
Context `{Medium}.

Lemma Invoices_getAll_run (partnerCode : option string) (st : LocalStorage) :
  Invoices.getAll partnerCode st =
    (Normal (if truthy partnerCode
             then filter (λ i, Some (Invoice.partnerCode i) = partnerCode)
                    (invoices_in st)
             else invoices_in st), st).
Proof.
  unfold Invoices.getAll. js_unfold. rewrite loadFromStorage_peek.
  by destruct (truthy partnerCode).
Qed.

Lemma Invoices_getById_run (id : string) (st : LocalStorage) :
  Invoices.getById id st =
    (Normal (find (invoice_has_id id) (invoices_in st)), st).
Proof.
  unfold Invoices.getById. js_unfold. by rewrite Invoices_getAll_run.
Qed.

Lemma Invoices_create_run (r : Readings) (inv : Invoice.t) (userId : option string)
    (st : LocalStorage) :
  Invoices.create r inv userId st =
    (Invoices.save (inv :: invoices_in st);;
     createAuditLog r (Invoices.created_entry inv (default "system" userId))) st.
Proof.
  unfold Invoices.create. js_unfold. by rewrite Invoices_getAll_run.
Qed.

Lemma Invoices_update_run (r : Readings) (id : string) (updates : PartialInvoice.t)
    (userId : option string) (st : LocalStorage) :
  Invoices.update r id updates userId st =
    match findIndex (invoice_has_id id) (invoices_in st) with
    | Some index =>
        match invoices_in st !! index with
        | Some existing =>
            (Invoices.save (<[index := spread existing updates]> (invoices_in st));;
             createAuditLog r
               (Invoices.updated_entry id (spread existing updates)
                  (default "system" userId))) st
        | None => (Normal (), st)
        end
    | None => (Normal (), st)
    end.
Proof.
  unfold Invoices.update. js_unfold. rewrite Invoices_getAll_run. simpl.
  fold (invoice_has_id id).
  destruct (findIndex _ _) as [k|]; [|done].
  by destruct (invoices_in st !! k).
Qed.

(** A [create] that returns has put the invoice in front of the stored
    collection. *)
Lemma Invoices_create_returns (r : Readings) (inv : Invoice.t)
    (userId : option string) (st st' : LocalStorage) :
  Invoices.create r inv userId st = (Normal (), st') →
  invoices_in st' = inv :: invoices_in st.
Proof.
  rewrite Invoices_create_run. unfold Invoices.save.
  destruct (saveToStorage_cases COLLECTION_KEYS.INVOICES (inv :: invoices_in st) st)
    as [Hs | Hs].
  - rewrite (bind_normal _ _ _ _ _ Hs). intros Hrun.
    assert (st' = (createAuditLog r
                     (Invoices.created_entry inv (default "system" userId))
                     (<[COLLECTION_KEYS.INVOICES :=
                          to_slot (inv :: invoices_in st)]> st)).2) as ->
      by (by rewrite Hrun).
    unfold invoices_in at 1.
    rewrite peek_after_audit by apply key_distinct_invoices_audit.
    apply peek_insert_eq.
  - rewrite (bind_throw _ _ _ _ _ Hs). discriminate.
Qed.
End InvoiceFacts.

(** C6, as amended.  After a [create] that returns, [getById] of the
    invoice's id gives back the invoice itself; [getAll] with the invoice's
    own partner code lists it; [getAll] with any other non-empty partner
    code does not; and [getAll] with the empty string, like [getAll] with
    no argument, applies no filter and returns the whole collection, the
    new invoice first. *)
Theorem create_then_read `{Medium} (r : Readings) (inv : Invoice.t)
    (userId : option string) (st st' : LocalStorage) :
  Invoices.create r inv userId st = (Normal (), st') →
  Invoices.getById (Invoice.id inv) st' = (Normal (Some inv), st') ∧
  (∃ l, Invoices.getAll (Some (Invoice.partnerCode inv)) st' = (Normal l, st') ∧
        inv ∈ l) ∧
  (∀ partnerCode, partnerCode ≠ "" → partnerCode ≠ Invoice.partnerCode inv →
     ∃ l, Invoices.getAll (Some partnerCode) st' = (Normal l, st') ∧ inv ∉ l) ∧
  Invoices.getAll (Some "") st' = (Normal (inv :: invoices_in st), st') ∧
  Invoices.getAll None st' = (Normal (inv :: invoices_in st), st').
Proof.
  intros Hcreate. apply Invoices_create_returns in Hcreate as Hfront.
  rewrite Invoices_getById_run. rewrite !Invoices_getAll_run. rewrite Hfront.
  split; [|split; [|split; [|split]]].
  - simpl. unfold invoice_has_id at 1. by rewrite String.eqb_refl.
  - eexists. split; [reflexivity|].
    destruct (truthy _); [|by left].
    apply list_elem_of_filter. split; [done | by left].
  - intros partnerCode Hne Hother. rewrite Invoices_getAll_run, Hfront.
    eexists. split; [reflexivity|].
    assert (truthy (Some partnerCode) = true) as ->.
    { simpl. apply negb_true_iff. by apply String.eqb_neq. }
    intros [Hpc _]%list_elem_of_filter. congruence.
  - reflexivity.
  - reflexivity.
Qed.

Lemma create_then_read_witness :
  @Invoices.getById (Invoice.id invoice_i1)
    (@Invoices.create roomy noon invoice_i1 None two_invoices).2 =
  (Normal (Some invoice_i1), (@Invoices.create roomy noon invoice_i1 None two_invoices).2).
Proof.
  apply (@create_then_read roomy noon invoice_i1 None two_invoices).
  vm_compute; reflexivity.
Defined.

(** C6 as stated fails for the empty partner code: the invoice just created
    for partner P1 is listed by [getAll('')], although [''] is not its
    partner code. *)
Lemma getAll_empty_code_counterexample :
  (@Invoices.create roomy noon invoice_i1 None ∅).1 = Normal () ∧
  "" ≠ Invoice.partnerCode invoice_i1 ∧
  (Invoices.getAll (Some "") (@Invoices.create roomy noon invoice_i1 None ∅).2).1 =
    Normal [invoice_i1] ∧
  invoice_i1 ∈ [invoice_i1].
Proof.
  split; [vm_compute; reflexivity|].
  split; [discriminate|].
  split; [vm_compute; reflexivity | by left].
Qed.

Lemma merged_field_default {A} (existing : A) (given : option A) :
  merged_field existing given (default existing given).
Proof. by destruct given. Qed.

Lemma merged_field_optional {A} (existing given : option A) :
  merged_field existing (Some <$> given)
    match given with Some v => Some v | None => existing end.
Proof. by destruct given. Qed.

(** The spread of a record and partial fields is the merge the
    specification describes. *)
Lemma spread_is_merge (existing : Invoice.t) (updates : PartialInvoice.t) :
  merge_of existing updates (spread existing updates).
Proof.
  unfold merge_of, spread. cbn [Invoice.id Invoice.invoiceNumber Invoice.partnerCode
    Invoice.billingPeriod Invoice.issueDate Invoice.dueDate Invoice.currency
    Invoice.items Invoice.subtotal Invoice.taxRate Invoice.taxAmount
    Invoice.totalAmount Invoice.status Invoice.notes Invoice.publicMemo
    Invoice.paidAt Invoice.transactionReference].
  repeat (split; [apply merged_field_default|]).
  split; apply merged_field_optional.
Qed.

(** C7.  [update] on an id that no stored invoice carries returns normally
    and leaves the whole store, audit log included, as it was.  On an id
    that is stored, once the medium takes the write, the first invoice
    carrying it is replaced by a record that is the merge of that invoice
    and the partial fields (every field the partial fields give has the
    given value, every other field the value it had), and every other
    position keeps its invoice.  The partial fields are those of
    [PartialInvoice.t]: a field that is present holds a value. *)
Theorem update_spec `{Medium} (r : Readings) (id : string)
    (updates : PartialInvoice.t) (userId : option string) (st : LocalStorage) :
  ((∀ i, i ∈ invoices_in st → Invoice.id i ≠ id) →
     Invoices.update r id updates userId st = (Normal (), st)) ∧
  (∀ (k : nat) (existing : Invoice.t),
     invoices_in st !! k = Some existing →
     Invoice.id existing = id →
     (∀ j x, j < k → invoices_in st !! j = Some x → Invoice.id x ≠ id) →
     accepts st COLLECTION_KEYS.INVOICES
       (StoredInvoices (<[k := spread existing updates]> (invoices_in st))) = true →
     ∃ merged,
       merge_of existing updates merged ∧
       invoices_in (Invoices.update r id updates userId st).2 !! k = Some merged ∧
       invoices_in (Invoices.update r id updates userId st).2 =
         <[k := merged]> (invoices_in st) ∧
       (∀ j, j ≠ k →
          invoices_in (Invoices.update r id updates userId st).2 !! j =
          invoices_in st !! j)).
Proof.
  rewrite Invoices_update_run. split.
  - intros Habsent. rewrite findIndex_none; [done|].
    intros i Hi. unfold invoice_has_id. apply String.eqb_neq. by apply Habsent.
  - intros k existing Hk Hid Hfirst Hacc.
    rewrite (findIndex_first _ _ k existing); [|done| |].
    + rewrite Hk. unfold Invoices.save.
      pose proof (saveToStorage_accepted COLLECTION_KEYS.INVOICES
                    (<[k := spread existing updates]> (invoices_in st)) st Hacc)
        as Hsave.
      rewrite (bind_normal _ _ _ _ _ Hsave).
      set (st' := (createAuditLog r _ _).2).
      assert (invoices_in st' = <[k := spread existing updates]> (invoices_in st))
        as Hafter.
      { subst st'. unfold invoices_in at 1.
        rewrite peek_after_audit by apply key_distinct_invoices_audit.
        apply peek_insert_eq. }
      rewrite Hafter. exists (spread existing updates).
      split; [apply spread_is_merge|]. split.
      { apply list_lookup_insert_eq. by apply (lookup_lt_Some _ _ existing). }
      split; [done|].
      intros j Hj. by rewrite list_lookup_insert_ne.
    + unfold invoice_has_id. rewrite Hid. apply String.eqb_refl.
    + intros j x Hj Hx. unfold invoice_has_id. apply String.eqb_neq.
      by apply (Hfirst j x).
Qed.

Lemma update_spec_witness :
  @Invoices.update roomy noon "i9" mark_paid None two_invoices =
    (Normal (), two_invoices) ∧
  invoices_in (@Invoices.update roomy noon "i1" mark_paid None two_invoices).2 =
    [invoice_i2; invoice_i1_paid].
Proof.
  split.
  - apply (proj1 (@update_spec roomy noon "i9" mark_paid None two_invoices)).
    intros i Hi. change (i ∈ [invoice_i2; invoice_i1]) in Hi.
    apply list_elem_of_In in Hi. simpl in Hi.
    destruct Hi as [<- | [<- | []]]; discriminate.
  - destruct (proj2 (@update_spec roomy noon "i1" mark_paid None two_invoices)
                1 invoice_i1) as (merged & Hmerge & _ & Hlist & _).
    + vm_compute; reflexivity.
    + reflexivity.
    + intros j x Hj Hx. assert (j = 0) as -> by lia.
      change (Some invoice_i2 = Some x) in Hx. injection Hx as <-. discriminate.
    + reflexivity.
    + rewrite Hlist. destruct merged. unfold merge_of in Hmerge.
      cbn in Hmerge.
      destruct Hmerge as (-> & -> & -> & -> & -> & -> & -> & -> & -> & -> & ->
                          & -> & -> & -> & -> & -> & ->).
      reflexivity.
Defined.

(** ** Dataset versions *)

Lemma length_removelast {A} (l : list A) : length (removelast l) = pred (length l).
Proof. rewrite removelast_firstn_len. rewrite length_take. lia. Qed.

Lemma retained_length (version : DatasetVersion.t) (current : list DatasetVersion.t) :
  (length current ≤ 5)%nat → (length (retained version current) ≤ 5)%nat.
Proof.
  intros Hle. unfold retained.
  destruct (5 <? length (version :: current))%nat eqn:E.
  - rewrite length_removelast. simpl. lia.
  - apply Nat.ltb_ge in E. exact E.
Qed.

Lemma retained_room (version : DatasetVersion.t) (current : list DatasetVersion.t) :
  (length current < 5)%nat → retained version current = version :: current.
Proof.
  intros Hlt. unfold retained.
  destruct (5 <? length (version :: current))%nat eqn:E; [|done].
  apply Nat.ltb_lt in E. simpl in E. lia.
Qed.

Lemma retained_full (version : DatasetVersion.t) (current : list DatasetVersion.t) :
  length current = 5 → retained version current = version :: removelast current.
Proof.
  intros Hfull. unfold retained.
  destruct (5 <? length (version :: current))%nat eqn:E.
  - destruct current; [discriminate | reflexivity].
  - apply Nat.ltb_ge in E. simpl in E. lia.
Qed.

Section VersionFacts.
Context `{Medium} `{Engine}.

Lemma DatasetVersions_save_run (r : Readings) (version : DatasetVersion.t)
    (userId : option string) (st : LocalStorage) :
  DatasetVersions.save r version userId st =
    (saveToStorage COLLECTION_KEYS.VERSIONS (retained version (versions_in st));;
     createAuditLog r
       (DatasetVersions.upload_entry version (default "system" userId))) st.
Proof.
  unfold DatasetVersions.save, DatasetVersions.getAll. js_unfold.
  by rewrite loadFromStorage_peek.
Qed.

Lemma getDatasetVersions_run (st : LocalStorage) :
  LocalDatabaseService.getDatasetVersions st = (Normal (versions_in st), st).
Proof.
  unfold LocalDatabaseService.getDatasetVersions, versions_in, peek, getItem.
  js_unfold.
  change LocalDatabaseService.KEYS.VERSIONS with COLLECTION_KEYS.VERSIONS.
  destruct (st !! COLLECTION_KEYS.VERSIONS) as [v|]; simpl; [|done].
  by destruct v.
Qed.

Lemma saveDatasetVersion_run (version : DatasetVersion.t) (st : LocalStorage) :
  LocalDatabaseService.saveDatasetVersion version st =
    if accepts st COLLECTION_KEYS.VERSIONS
         (StoredVersions (retained version (versions_in st)))
    then (Normal (),
          <[COLLECTION_KEYS.VERSIONS :=
              StoredVersions (retained version (versions_in st))]> st)
    else (Normal (), st).
Proof.
  unfold LocalDatabaseService.saveDatasetVersion.
  unfold try_catch at 1. unfold mbind, JS_bind.
  rewrite getDatasetVersions_run. unfold setItem.
  change LocalDatabaseService.KEYS.VERSIONS with COLLECTION_KEYS.VERSIONS.
  fold (retained version (versions_in st)). simpl.
  by destruct (accepts _ _ _).
Qed.

(** What [DatasetVersions.save] leaves under the versions key. *)
Lemma versions_after_save (r : Readings) (version : DatasetVersion.t)
    (userId : option string) (st : LocalStorage) :
  versions_in (DatasetVersions.save r version userId st).2 =
    if accepts st COLLECTION_KEYS.VERSIONS
         (StoredVersions (retained version (versions_in st)))
    then retained version (versions_in st)
    else versions_in st.
Proof.
  rewrite DatasetVersions_save_run.
  destruct (accepts _ _ _) eqn:E.
  - pose proof (saveToStorage_accepted COLLECTION_KEYS.VERSIONS
                  (retained version (versions_in st)) st E) as Hs.
    rewrite (bind_normal _ _ _ _ _ Hs). unfold versions_in at 1.
    rewrite peek_after_audit by apply key_distinct_versions_audit.
    apply peek_insert_eq.
  - pose proof (saveToStorage_rejected COLLECTION_KEYS.VERSIONS
                  (retained version (versions_in st)) st E) as Hs.
    by rewrite (bind_throw _ _ _ _ _ Hs).
Qed.

Lemma versions_after_saveDatasetVersion (version : DatasetVersion.t)
    (st : LocalStorage) :
  versions_in (LocalDatabaseService.saveDatasetVersion version st).2 =
    if accepts st COLLECTION_KEYS.VERSIONS
         (StoredVersions (retained version (versions_in st)))
    then retained version (versions_in st)
    else versions_in st.
Proof.
  rewrite saveDatasetVersion_run.
  destruct (accepts _ _ _); simpl; [|done].
  unfold versions_in at 1, peek. by rewrite lookup_insert_eq.
Qed.
End VersionFacts.

(** C5.  From a store that holds at most five versions, both
    [DatasetVersions.save] and [LocalDatabaseService.saveDatasetVersion]
    leave at most five, whether or not the medium takes the write.  When it
    does, the new version is in front; with fewer than five stored before,
    all of them follow it, and with five stored before, all but the last
    (the oldest) follow it. *)
Theorem dataset_versions_capped `{Medium} `{Engine} (r : Readings)
    (version : DatasetVersion.t) (userId : option string) (st : LocalStorage) :
  (length (versions_in st) ≤ 5)%nat →
  ((length (versions_in (DatasetVersions.save r version userId st).2) ≤ 5)%nat ∧
   (length (versions_in (LocalDatabaseService.saveDatasetVersion version st).2) ≤ 5)%nat) ∧
  (accepts st COLLECTION_KEYS.VERSIONS
     (StoredVersions (retained version (versions_in st))) = true →
   ((length (versions_in st) < 5)%nat →
      versions_in (DatasetVersions.save r version userId st).2 =
        version :: versions_in st ∧
      versions_in (LocalDatabaseService.saveDatasetVersion version st).2 =
        version :: versions_in st) ∧
   (length (versions_in st) = 5 →
      versions_in (DatasetVersions.save r version userId st).2 =
        version :: removelast (versions_in st) ∧
      versions_in (LocalDatabaseService.saveDatasetVersion version st).2 =
        version :: removelast (versions_in st))).
Proof.
  intros Hle.
  rewrite versions_after_save, versions_after_saveDatasetVersion.
  split.
  - destruct (accepts _ _ _); split; auto using retained_length.
  - intros ->. split; intros Hlen.
    + by rewrite retained_room.
    + by rewrite retained_full.
Qed.

Lemma dataset_versions_capped_witness :
  versions_in (@DatasetVersions.save roomy decimal noon (version_n 6) None five_versions).2 =
    version_n 6 :: removelast (versions_in five_versions) ∧
  versions_in (@LocalDatabaseService.saveDatasetVersion roomy (version_n 6)
                 five_versions).2 =
    version_n 6 :: removelast (versions_in five_versions).
Proof.
  apply (@dataset_versions_capped roomy decimal noon (version_n 6) None five_versions).
  - vm_compute. lia.
  - reflexivity.
  - reflexivity.
Defined.

(** ** Audit logging as part of an operation *)

Lemma createAuditLog_throws (H : Medium) (r : Readings) (log : AuditLogInput.t)
    (st : LocalStorage) :
  throws (createAuditLog r log) st →
  createAuditLog r log st = (Throw audit_write_failure, st).
Proof.
  intros Hthrows. apply createAuditLog_throws_iff in Hthrows.
  rewrite createAuditLog_run.
  exact (saveToStorage_rejected COLLECTION_KEYS.AUDIT_LOGS
           (take 1000 (newLog r log :: audit_logs_in st)) st Hthrows).
Qed.

(** An entity write followed by an audit entry that cannot be stored: the
    write stays, the operation throws. *)
Lemma audited_write_fails (H : Medium) (write : JS unit) (r : Readings)
    (log : AuditLogInput.t) (st st1 : LocalStorage) :
  write st = (Normal (), st1) →
  throws (createAuditLog r log) st1 →
  (write;; createAuditLog r log) st = (Throw audit_write_failure, st1).
Proof.
  intros Hwrite Hthrows. rewrite (bind_normal _ _ _ _ _ Hwrite).
  by apply createAuditLog_throws.
Qed.

(** C3 as stated fails.  With room for one entry, creating an invoice in an
    empty store stores the invoice, finds no room for the audit entry, and
    throws to the caller. *)
Lemma audit_failure_counterexample :
  @Invoices.save (quota_medium 1) [invoice_i1] ∅ =
    (Normal (), {[ COLLECTION_KEYS.INVOICES := StoredInvoices [invoice_i1] ]}) ∧
  @createAuditLog (quota_medium 1) noon (Invoices.created_entry invoice_i1 "system")
    {[ COLLECTION_KEYS.INVOICES := StoredInvoices [invoice_i1] ]} =
    (Throw audit_write_failure,
     {[ COLLECTION_KEYS.INVOICES := StoredInvoices [invoice_i1] ]}) ∧
  @Invoices.create (quota_medium 1) noon invoice_i1 None ∅ =
    (Throw audit_write_failure,
     {[ COLLECTION_KEYS.INVOICES := StoredInvoices [invoice_i1] ]}).
Proof. repeat split; vm_compute; reflexivity. Qed.

(** C3, as amended.  When the entity write of [Invoices.create],
    [Invoices.update] or [DatasetVersions.save] has gone through and the
    audit entry cannot be stored, the entity write is kept (the store is
    the one the write produced, holding the new collection) and the
    operation throws the storage error to its caller. *)
Theorem audit_failure_propagates `{Medium} `{Engine} (r : Readings) (userId : option string)
    (st st1 : LocalStorage) :
  (∀ inv,
     Invoices.save (inv :: invoices_in st) st = (Normal (), st1) →
     throws (createAuditLog r
               (Invoices.created_entry inv (default "system" userId))) st1 →
     Invoices.create r inv userId st = (Throw audit_write_failure, st1) ∧
     invoices_in st1 = inv :: invoices_in st) ∧
  (∀ id updates k existing,
     findIndex (invoice_has_id id) (invoices_in st) = Some k →
     invoices_in st !! k = Some existing →
     Invoices.save (<[k := spread existing updates]> (invoices_in st)) st =
       (Normal (), st1) →
     throws (createAuditLog r
               (Invoices.updated_entry id (spread existing updates)
                  (default "system" userId))) st1 →
     Invoices.update r id updates userId st = (Throw audit_write_failure, st1) ∧
     invoices_in st1 = <[k := spread existing updates]> (invoices_in st)) ∧
  (∀ version,
     saveToStorage COLLECTION_KEYS.VERSIONS (retained version (versions_in st)) st =
       (Normal (), st1) →
     throws (createAuditLog r
               (DatasetVersions.upload_entry version (default "system" userId))) st1 →
     DatasetVersions.save r version userId st = (Throw audit_write_failure, st1) ∧
     versions_in st1 = retained version (versions_in st)).
Proof.
  split; [|split].
  - intros inv Hsave Hthrows. split.
    + rewrite Invoices_create_run. by apply audited_write_fails.
    + by eapply peek_after_save.
  - intros id updates k existing Hfind Hk Hsave Hthrows. split.
    + rewrite Invoices_update_run, Hfind, Hk. by apply audited_write_fails.
    + by eapply peek_after_save.
  - intros version Hsave Hthrows. split.
    + rewrite DatasetVersions_save_run. by apply audited_write_fails.
    + by eapply peek_after_save.
Qed.

Lemma audit_failure_propagates_witness :
  @Invoices.create (quota_medium 1) noon invoice_i1 None ∅ =
    (Throw audit_write_failure,
     {[ COLLECTION_KEYS.INVOICES := StoredInvoices [invoice_i1] ]}) ∧
  invoices_in {[ COLLECTION_KEYS.INVOICES := StoredInvoices [invoice_i1] ]} =
    invoice_i1 :: invoices_in ∅.
Proof.
  apply (proj1 (@audit_failure_propagates (quota_medium 1) decimal noon None ∅
                  {[ COLLECTION_KEYS.INVOICES := StoredInvoices [invoice_i1] ]})
           invoice_i1).
  - vm_compute; reflexivity.
  - exists audit_write_failure. vm_compute; reflexivity.
Defined.

(** ** The audit log's cap *)

Lemma take_app_take {A} (n : nat) (l1 l2 : list A) :
  take n (l1 ++ take n l2) = take n (l1 ++ l2).
Proof.
  rewrite !take_app, take_take. do 2 f_equal. lia.
Qed.

Section AuditCap.
Context `{Medium}.

Lemma audit_after_createAuditLog (r : Readings) (log : AuditLogInput.t)
    (st st1 : LocalStorage) :
  createAuditLog r log st = (Normal (), st1) →
  audit_logs_in st1 = take 1000 (newLog r log :: audit_logs_in st).
Proof.
  rewrite createAuditLog_run. intros Hrun.
  by eapply peek_after_save.
Qed.

Lemma audit_bound_createAuditLog (r : Readings) (log : AuditLogInput.t)
    (st : LocalStorage) :
  (length (audit_logs_in st) ≤ 1000)%nat →
  (length (audit_logs_in (createAuditLog r log st).2) ≤ 1000)%nat.
Proof.
  intros Hle. rewrite createAuditLog_run.
  destruct (saveToStorage_cases COLLECTION_KEYS.AUDIT_LOGS
              (take 1000 (newLog r log :: audit_logs_in st)) st) as [-> | ->];
    cbn [snd]; [|done].
  unfold audit_logs_in at 1. rewrite peek_insert_eq, length_take. lia.
Qed.

Lemma record_all_bound (entries : list (Readings * AuditLogInput.t))
    (st : LocalStorage) :
  (length (audit_logs_in st) ≤ 1000)%nat →
  (length (audit_logs_in (record_all entries st).2) ≤ 1000)%nat.
Proof.
  revert st. induction entries as [|[r log] rest IH]; intros st Hle; [done|].
  pose proof (audit_bound_createAuditLog r log st Hle) as Hstep.
  simpl. destruct (createAuditLog r log st) as [[[]|e] st1] eqn:E.
  - rewrite (bind_normal _ _ _ _ _ E). by apply IH.
  - by rewrite (bind_throw _ _ _ _ _ E).
Qed.

Lemma record_all_log (entries : list (Readings * AuditLogInput.t))
    (st : LocalStorage) :
  entries ≠ [] →
  (record_all entries st).1 = Normal () →
  audit_logs_in (record_all entries st).2 =
    take 1000 (reverse (uncurry newLog <$> entries) ++ audit_logs_in st).
Proof.
  revert st. induction entries as [|[r log] rest IH]; intros st Hne; [done|].
  simpl. destruct (createAuditLog r log st) as [[[]|e] st1] eqn:E.
  - rewrite (bind_normal _ _ _ _ _ E). intros Hrest.
    apply audit_after_createAuditLog in E.
    rewrite reverse_cons, <- app_assoc. simpl.
    destruct rest as [|e' rest'].
    + simpl. by rewrite E.
    + rewrite IH by done. by rewrite E, take_app_take.
  - rewrite (bind_throw _ _ _ _ _ E). discriminate.
Qed.
End AuditCap.

(** C4.  A log of at most 1000 entries stays at most 1000 entries long
    through any run of [createAuditLog] calls; and after a run of 1000 + k
    calls that all return, the log is the entries of the last 1000 calls,
    the most recent first. *)
Theorem audit_log_capped `{Medium} (entries : list (Readings * AuditLogInput.t))
    (st : LocalStorage) :
  ((length (audit_logs_in st) ≤ 1000)%nat →
   (length (audit_logs_in (record_all entries st).2) ≤ 1000)%nat) ∧
  (∀ k : nat, length entries = (1000 + k)%nat →
     (record_all entries st).1 = Normal () →
     audit_logs_in (record_all entries st).2 =
       reverse (drop k (uncurry newLog <$> entries)) ∧
     length (audit_logs_in (record_all entries st).2) = 1000%nat).
Proof.
  split; [apply record_all_bound|].
  intros k Hlen Hrun.
  assert (audit_logs_in (record_all entries st).2 =
          reverse (drop k (uncurry newLog <$> entries))) as Hlog.
  { rewrite record_all_log; [|by destruct entries|done].
    rewrite take_app_le by (rewrite length_reverse, length_fmap; lia).
    rewrite take_reverse, length_fmap. do 2 f_equal. lia. }
  split; [done|].
  rewrite Hlog, length_reverse, length_drop, length_fmap. lia.
Qed.

Lemma audit_log_capped_witness :
  audit_logs_in (@record_all roomy (login_entry <$> seq 0 1002) ∅).2 =
    reverse (drop 2 (uncurry newLog <$> (login_entry <$> seq 0 1002))) ∧
  length (audit_logs_in (@record_all roomy (login_entry <$> seq 0 1002) ∅).2) =
    1000%nat.
Proof.
  apply (proj2 (@audit_log_capped roomy (login_entry <$> seq 0 1002) ∅) 2).
  - vm_compute; reflexivity.
  - vm_compute; reflexivity.
Defined.

(** ** The gateway *)

Lemma truthy_nonempty (s : string) : s ≠ "" → truthy (Some s) = true.
Proof. intros Hne. simpl. apply negb_true_iff. by apply String.eqb_neq. Qed.

Lemma startsWith_Bearer (token : string) :
  startsWith (default "" (Some ("Bearer " +:+ token))) "Bearer " = true.
Proof. unfold startsWith. simpl. by destruct token. Qed.

Lemma prefix_cons (c : ascii) (p s : string) :
  String.prefix (String c p) s = true →
  ∃ s', s = String c s' ∧ String.prefix p s' = true.
Proof.
  destruct s as [|b s']; [discriminate|]. cbn [String.prefix].
  destruct (ascii_dec c b) as [<-|]; [eauto | discriminate].
Qed.

Lemma startsWith_Bearer_inv (a : string) :
  startsWith a "Bearer " = true → a = "Bearer " +:+ substring_from 7 a.
Proof.
  unfold startsWith. intros Hprefix.
  do 7 (apply prefix_cons in Hprefix as (? & -> & Hprefix)).
  reflexivity.
Qed.

Lemma ident_start_char (c : ascii) : ident_start c = true → ident_char c = true.
Proof.
  unfold ident_start, ident_char.
  destruct (in_range "a" "z" c), (in_range "A" "Z" c), (in_range "0" "9" c),
    (Ascii.eqb c "_"); simpl; done.
Qed.

(** One character outside [[a-zA-Z0-9_]] makes a name invalid. *)
Lemma isValidColumnName_outside (name : string) (c : ascii) :
  c ∈ String.list_ascii_of_string name → ident_char c = false →
  isValidColumnName name = false.
Proof.
  destruct name as [|a rest]; [done|]. simpl.
  intros Hin Hbad. apply andb_false_iff.
  apply elem_of_cons in Hin as [-> | Hin].
  - left. destruct (ident_start a) eqn:E; [|done].
    apply ident_start_char in E. congruence.
  - right. apply not_true_is_false. intros Hall.
    rewrite forallb_forall in Hall.
    apply list_elem_of_In in Hin. specialize (Hall c Hin). congruence.
Qed.

Section GatewayFacts.
Context `{Services}.

Lemma run_query_status (text : string) (params : list json) (db : Database)
    (answer : list json → HandlerResponse) :
  (∀ rows, statusCode (answer rows) = 200%Z) →
  statusCode (response (run_query text params db answer)) = 200%Z ∨
  statusCode (response (run_query text params db answer)) = 500%Z.
Proof.
  intros Hok. unfold run_query.
  destruct (query text params db) as [[rows|] db']; simpl; auto.
Qed.

(** Past authentication the handler answers 200, 400, 405 or 500. *)
Lemma dispatch_status (event : HandlerEvent) (db : Database) :
  statusCode (response (dispatch event db)) ∈ [200; 400; 405; 500]%Z.
Proof.
  unfold dispatch, handle_GET, handle_POST.
  repeat case_match; simpl;
    try (match goal with
         | |- context [run_query ?t ?p ?d ?a] =>
             destruct (run_query_status t p d a) as [-> | ->]; [done | |]
         end);
    set_solver.
Qed.

(** A request with a bearer token reaches [jwt.verify] with that token. *)
Lemma handler_with_token (env : ProcessEnv) (event : HandlerEvent) (db : Database)
    (secret token : string) :
  JWT_SECRET env = Some secret → secret ≠ "" →
  authorization_header event = Some ("Bearer " +:+ token) →
  handler env event db =
    match jwt_verify token secret with
    | Verified => dispatch event db
    | _ => error_reply db 401 "Invalid token"
    end.
Proof.
  intros Henv Hsecret Hheader. unfold handler.
  rewrite Hheader, Henv, (truthy_nonempty secret Hsecret).
  rewrite (startsWith_Bearer token). reflexivity.
Qed.

(** Without a configured secret a request that carries a bearer token is
    answered 500 before the token is looked at. *)
Lemma handler_without_secret (env : ProcessEnv) (event : HandlerEvent)
    (db : Database) (token : string) :
  truthy (JWT_SECRET env) = false →
  authorization_header event = Some ("Bearer " +:+ token) →
  handler env event db = error_reply db 500 "Internal server error".
Proof.
  intros Henv Hheader. unfold handler.
  rewrite Hheader, Henv, (startsWith_Bearer token). reflexivity.
Qed.

(** Every request has no usable header, a header without the prefix, or a
    bearer token. *)
Lemma authorization_header_cases (event : HandlerEvent) :
  authorization_header event = None ∨
  (∃ a, authorization_header event = Some a ∧ startsWith a "Bearer " = false) ∨
  (∃ token, authorization_header event = Some ("Bearer " +:+ token)).
Proof.
  destruct (authorization_header event) as [a|]; [|by left]. right.
  destruct (startsWith a "Bearer ") eqn:E; [right | left; eauto].
  exists (substring_from 7 a). f_equal. by apply startsWith_Bearer_inv.
Qed.

(** C1.  With the signing secret configured: a request whose
    authorization header is 'Bearer ' followed by a token that
    [jwt.verify] accepts under that secret goes on to the dispatch and is
    not answered 401; one whose token [jwt.verify] rejects (malformed,
    signed otherwise, expired) is answered 401 'Invalid token'; one with
    no authorization header, or one that does not start with 'Bearer ',
    is answered 401 'Unauthorized'.  The two rejections send nothing to
    the database and leave it as it was. *)
Theorem gateway_authentication (env : ProcessEnv) (event : HandlerEvent)
    (db : Database) (secret : string) :
  JWT_SECRET env = Some secret → secret ≠ "" →
  (∀ token,
     authorization_header event = Some ("Bearer " +:+ token) →
     jwt_verify token secret = Verified →
     handler env event db = dispatch event db ∧
     statusCode (response (handler env event db)) ≠ 401%Z) ∧
  (∀ token,
     authorization_header event = Some ("Bearer " +:+ token) →
     jwt_verify token secret ≠ Verified →
     handler env event db =
       {| response :=
            {| statusCode := 401;
               response_body := Some (JObj [("error", JStr "Invalid token")]) |};
          database := db; issued := [] |}) ∧
  ((authorization_header event = None ∨
    ∃ a, authorization_header event = Some a ∧ startsWith a "Bearer " = false) →
   handler env event db =
     {| response :=
          {| statusCode := 401;
             response_body := Some (JObj [("error", JStr "Unauthorized")]) |};
        database := db; issued := [] |}).
Proof.
  intros Henv Hsecret. split; [|split].
  - intros token Hheader Hok.
    rewrite (handler_with_token env event db secret token) by done.
    rewrite Hok. split; [done|].
    pose proof (dispatch_status event db) as Hstatus.
    intros E. rewrite E in Hstatus.
    rewrite !elem_of_cons, elem_of_nil in Hstatus. lia.
  - intros token Hheader Hbad.
    rewrite (handler_with_token env event db secret token) by done.
    by destruct (jwt_verify token secret).
  - intros [Hnone | (a & Hheader & Hprefix)]; unfold handler.
    + by rewrite Hnone.
    + rewrite Hheader. simpl. rewrite Hprefix.
      by rewrite orb_true_r.
Qed.
(** A value that has a key of its own is taken for data. *)
Lemma keys_truthy (data : json) (key : string) :
  key ∈ Object_keys data → json_truthy (Some data) = true.
Proof.
  destruct data as [| b | n | s | elems | members]; simpl;
    try (intros Hkey; by apply elem_of_nil in Hkey); try done.
  destruct s; [|done]. intros Hkey. by apply elem_of_nil in Hkey.
Qed.

(** The POST branch on a body whose [data] has a field name that is no
    column name: nothing is sent, and the answer is 400 unless looking the
    type up throws, which the branch answers 500. *)
Lemma handle_POST_invalid_column (event : HandlerEvent) (db : Database)
    (parsed data : json) (type : option json) :
  JSON_parse (body_text event) = Some parsed →
  get_member "type" parsed = Some type →
  get_member "data" parsed = Some (Some data) →
  json_truthy (Some data) = true →
  forallb isValidColumnName (Object_keys data) = false →
  issued (handle_POST event db) = [] ∧
  database (handle_POST event db) = db ∧
  (statusCode (response (handle_POST event db)) = 400%Z ∨
   statusCode (response (handle_POST event db)) = 500%Z) ∧
  (statusCode (response (handle_POST event db)) = 500%Z ↔
   json_truthy type = true ∧ ToString (default JNull type) = None).
Proof.
  intros Hparse Htype Hdata Htruthy Hcols. unfold handle_POST.
  rewrite Hparse, Htype, Hdata, Htruthy.
  destruct (json_truthy type) eqn:Htt; cbn [negb orb].
  - destruct (ToString (default JNull type)) as [name|] eqn:Hname.
    + assert (∀ o : Outcome,
                o = error_reply db 400 "Invalid type parameter" ∨
                o = error_reply db 400 "Invalid column name in data" →
                issued o = [] ∧ database o = db ∧
                (statusCode (response o) = 400%Z ∨ statusCode (response o) = 500%Z) ∧
                (statusCode (response o) = 500%Z ↔ true = true ∧ Some name = None))
        as Hanswer.
      { intros o [-> | ->]; cbn; (split; [done|]); (split; [done|]);
          (split; [by left|]); (split; [discriminate | intros [_ E]; discriminate E]). }
      destruct (entityTableMap_at name) as [tableName|]; [|apply Hanswer; by left].
      cbn [default from_option id]. rewrite Hcols. apply Hanswer. by right.
    + cbn. split; [done|]. split; [done|]. split; [by right|]. by split.
  - cbn. split; [done|]. split; [done|]. split; [by left|].
    split; [discriminate | intros [E _]; discriminate E].
Qed.

(** C8, as amended.  A verified POST whose body parses to an object with a
    [data] member one of whose field names has a character outside
    [[a-zA-Z0-9_]] sends no statement to the database, which stays as it
    was.  It is answered 400, except where the [type] of the body is truthy
    and has no property key (an object with a [toString] member of its own,
    or an array holding one): there the lookup of the type throws before
    the field names are checked, and the answer is 500. *)
Theorem invalid_column_rejected (env : ProcessEnv) (event : HandlerEvent)
    (db : Database) (secret token : string) (parsed data : json)
    (type : option json) (key : string) (c : ascii) :
  JWT_SECRET env = Some secret → secret ≠ "" →
  authorization_header event = Some ("Bearer " +:+ token) →
  jwt_verify token secret = Verified →
  httpMethod event = "POST" →
  JSON_parse (body_text event) = Some parsed →
  get_member "type" parsed = Some type →
  get_member "data" parsed = Some (Some data) →
  key ∈ Object_keys data →
  c ∈ String.list_ascii_of_string key → ident_char c = false →
  issued (handler env event db) = [] ∧
  database (handler env event db) = db ∧
  (statusCode (response (handler env event db)) = 400%Z ∨
   statusCode (response (handler env event db)) = 500%Z) ∧
  (statusCode (response (handler env event db)) = 500%Z ↔
   json_truthy type = true ∧ ToString (default JNull type) = None).
Proof.
  intros Henv Hsecret Hheader Hok Hpost Hparse Htype Hdata Hkey Hc Hbad.
  rewrite (handler_with_token env event db secret token) by done.
  rewrite Hok. unfold dispatch. rewrite Hpost. simpl.
  apply (handle_POST_invalid_column event db parsed data type); try done.
  - by apply (keys_truthy data key).
  - apply not_true_is_false. intros Hall. rewrite forallb_forall in Hall.
    apply list_elem_of_In in Hkey. specialize (Hall key Hkey).
    rewrite (isValidColumnName_outside key c Hc Hbad) in Hall. done.
Qed.

(** C9, as amended.  A verified request whose method is neither GET nor
    POST, PUT and PATCH included, is answered 405 'Method not allowed'
    whatever its body declares, and nothing is sent to the database.
    POST alone is dispatched as a write: with a known entity type and
    well-formed field names it sends one INSERT into that type's table. *)
Theorem only_post_writes (env : ProcessEnv) (event : HandlerEvent)
    (db : Database) (secret token : string) :
  JWT_SECRET env = Some secret → secret ≠ "" →
  authorization_header event = Some ("Bearer " +:+ token) →
  jwt_verify token secret = Verified →
  (httpMethod event ≠ "GET" → httpMethod event ≠ "POST" →
   handler env event db =
     {| response :=
          {| statusCode := 405;
             response_body := Some (JObj [("error", JStr "Method not allowed")]) |};
        database := db; issued := [] |}) ∧
  (httpMethod event = "POST" →
   ∀ parsed type table data,
     JSON_parse (body_text event) = Some parsed →
     get_member "type" parsed = Some (Some (JStr type)) →
     get_member "data" parsed = Some (Some data) →
     entityTableMap_own type = Some table →
     json_truthy (Some data) = true →
     forallb isValidColumnName (Object_keys data) = true →
     issued (handler env event db) =
       [("INSERT INTO " +:+ table +:+ " (" +:+ String.concat ", " (Object_keys data)
         +:+ ") VALUES (" +:+ placeholders (Object_keys data) +:+ ") RETURNING *",
         Object_values data)]).
Proof.
  intros Henv Hsecret Hheader Hok.
  rewrite (handler_with_token env event db secret token) by done.
  rewrite Hok. unfold dispatch. split.
  - intros Hget Hpost.
    apply String.eqb_neq in Hget, Hpost. by rewrite Hget, Hpost.
  - intros Hpost parsed type table data Hparse Htype Hdata Htable Htruthy Hcols.
    rewrite Hpost. simpl. unfold handle_POST.
    rewrite Hparse, Htype, Hdata, Htruthy.
    assert (json_truthy (Some (JStr type)) = true) as ->.
    { destruct type; [discriminate Htable | done]. }
    simpl. unfold entityTableMap_at. rewrite Htable. rewrite Hcols.
    unfold run_query. by destruct (query _ _ _) as [[rows|] db'].
Qed.
End GatewayFacts.

Lemma gateway_authentication_witness :
  statusCode (response (@handler sample_services configured
    (request "GET" (Some "Bearer fresh.token") None) untouched)) ≠ 401%Z ∧
  @handler sample_services configured
    (request "GET" (Some "Bearer stale.token") None) untouched =
    {| response :=
         {| statusCode := 401;
            response_body := Some (JObj [("error", JStr "Invalid token")]) |};
       database := untouched; issued := [] |} ∧
  @handler sample_services configured (request "GET" None None) untouched =
    {| response :=
         {| statusCode := 401;
            response_body := Some (JObj [("error", JStr "Unauthorized")]) |};
       database := untouched; issued := [] |}.
Proof.
  split; [|split].
  - apply (proj1 (@gateway_authentication sample_services configured
                    (request "GET" (Some "Bearer fresh.token") None) untouched "s3cret"
                    eq_refl ltac:(discriminate)) "fresh.token");
      vm_compute; reflexivity.
  - apply (proj1 (proj2 (@gateway_authentication sample_services configured
                    (request "GET" (Some "Bearer stale.token") None) untouched "s3cret"
                    eq_refl ltac:(discriminate))) "stale.token").
    + vm_compute; reflexivity.
    + vm_compute; discriminate.
  - apply (proj2 (proj2 (@gateway_authentication sample_services configured
                    (request "GET" None None) untouched "s3cret"
                    eq_refl ltac:(discriminate)))).
    left. vm_compute; reflexivity.
Defined.

Lemma invalid_column_rejected_witness :
  statusCode (response (@handler sample_services configured
    (request "POST" (Some "Bearer fresh.token") (Some bad_column_body_text)) untouched))
    = 400%Z ∧
  issued (@handler sample_services configured
    (request "POST" (Some "Bearer fresh.token") (Some bad_column_body_text)) untouched) = [] ∧
  database (@handler sample_services configured
    (request "POST" (Some "Bearer fresh.token") (Some bad_column_body_text)) untouched) = untouched.
Proof.
  destruct (@invalid_column_rejected sample_services configured
              (request "POST" (Some "Bearer fresh.token") (Some bad_column_body_text))
              untouched "s3cret" "fresh.token" bad_column_body
              (JObj [("bad col", JNum 1%Z)]) (Some (JStr "invoices")) "bad col" " "%char
              eq_refl ltac:(discriminate) ltac:(vm_compute; reflexivity)
              ltac:(vm_compute; reflexivity) eq_refl ltac:(vm_compute; reflexivity)
              eq_refl eq_refl ltac:(simpl; by left) ltac:(simpl; do 3 right; by left)
              eq_refl)
    as (Hissued & Hdb & [H400 | H500] & Hiff).
  - split; [exact H400 | split; [exact Hissued | exact Hdb]].
  - destruct (proj1 Hiff H500) as [_ E]. discriminate E.
Defined.

(** C8 as stated fails.  A verified POST whose [data] has the field name
    'bad col' and whose [type] is an object with a [toString] member is
    answered 500, not 400: looking such a type up in [entityTableMap]
    throws before the field names are checked.  Nothing is sent to the
    database. *)
Lemma masked_type_counterexample :
  @JSON_parse wide_services (body_text (post_request (Some masked_type_body_text))) =
    Some masked_type_body ∧
  get_member "data" masked_type_body = Some (Some (JObj [("bad col", JNum 1%Z)])) ∧
  "bad col" ∈ Object_keys (JObj [("bad col", JNum 1%Z)]) ∧
  " "%char ∈ String.list_ascii_of_string "bad col" ∧
  ident_char " " = false ∧
  @handler wide_services configured (post_request (Some masked_type_body_text)) idle =
    {| response :=
         {| statusCode := 500;
            response_body := Some (JObj [("error", JStr "Internal server error")]) |};
       database := idle; issued := [] |}.
Proof.
  split; [vm_compute; reflexivity|].
  split; [reflexivity|].
  split; [simpl; by left|].
  split; [simpl; do 3 right; by left|].
  split; [reflexivity | vm_compute; reflexivity].
Qed.

(** C9 as stated fails.  The body that a POST turns into an INSERT is
    answered 405 when it comes with PUT or PATCH, and nothing is sent to
    the database. *)
Lemma put_patch_counterexample :
  issued (@handler sample_services configured
    (request "POST" (Some "Bearer fresh.token") (Some invoice_body_text)) untouched) =
    [("INSERT INTO invoices (id, partnerCode) VALUES ($1, $2) RETURNING *",
      [JStr "i1"; JStr "P1"])] ∧
  @handler sample_services configured
    (request "PUT" (Some "Bearer fresh.token") (Some invoice_body_text)) untouched =
    {| response :=
         {| statusCode := 405;
            response_body := Some (JObj [("error", JStr "Method not allowed")]) |};
       database := untouched; issued := [] |} ∧
  @handler sample_services configured
    (request "PATCH" (Some "Bearer fresh.token") (Some invoice_body_text)) untouched =
    {| response :=
         {| statusCode := 405;
            response_body := Some (JObj [("error", JStr "Method not allowed")]) |};
       database := untouched; issued := [] |}.
Proof. repeat split; vm_compute; reflexivity. Qed.

Lemma only_post_writes_witness :
  @handler sample_services configured
    (request "PUT" (Some "Bearer fresh.token") (Some invoice_body_text)) untouched =
    {| response :=
         {| statusCode := 405;
            response_body := Some (JObj [("error", JStr "Method not allowed")]) |};
       database := untouched; issued := [] |} ∧
  issued (@handler sample_services configured
    (request "POST" (Some "Bearer fresh.token") (Some invoice_body_text)) untouched) =
    [("INSERT INTO " +:+ "invoices" +:+ " (" +:+
      String.concat ", " (Object_keys (JObj [("id", JStr "i1"); ("partnerCode", JStr "P1")]))
      +:+ ") VALUES (" +:+
      placeholders (Object_keys (JObj [("id", JStr "i1"); ("partnerCode", JStr "P1")]))
      +:+ ") RETURNING *",
      Object_values (JObj [("id", JStr "i1"); ("partnerCode", JStr "P1")]))].
Proof.
  split.
  - apply (proj1 (@only_post_writes sample_services configured
                    (request "PUT" (Some "Bearer fresh.token") (Some invoice_body_text))
                    untouched "s3cret" "fresh.token" eq_refl ltac:(discriminate)
                    ltac:(vm_compute; reflexivity) ltac:(vm_compute; reflexivity)));
      discriminate.
  - apply (proj2 (@only_post_writes sample_services configured
                    (request "POST" (Some "Bearer fresh.token") (Some invoice_body_text))
                    untouched "s3cret" "fresh.token" eq_refl ltac:(discriminate)
                    ltac:(vm_compute; reflexivity) ltac:(vm_compute; reflexivity))
             eq_refl invoice_body "invoices" "invoices");
      vm_compute; reflexivity.
Defined.

(** * Further properties of the storage layer *)

(** A collection written by [saveToStorage] is what [loadFromStorage]
    reads back from the same key, whatever the fallback. *)
Theorem save_then_load `{Medium} {T} `{Storable T} (key : string)
    (data fallback : T) (st st' : LocalStorage) :
  saveToStorage key data st = (Normal (), st') →
  loadFromStorage key fallback st' = (Normal data, st').
Proof.
  intros Hsave. rewrite loadFromStorage_peek.
  by rewrite (peek_after_save key data fallback st st' Hsave).
Qed.

Lemma save_then_load_witness :
  loadFromStorage COLLECTION_KEYS.INVOICES [invoice_i2]
    (@saveToStorage roomy _ _ COLLECTION_KEYS.INVOICES ([] : list Invoice.t) two_invoices).2 =
  (Normal [],
   (@saveToStorage roomy _ _ COLLECTION_KEYS.INVOICES ([] : list Invoice.t) two_invoices).2).
Proof.
  apply (@save_then_load roomy _ _ COLLECTION_KEYS.INVOICES [] [invoice_i2] two_invoices).
  vm_compute; reflexivity.
Defined.

Lemma peek_unreadable_invoices (st : LocalStorage) :
  unreadable COLLECTION_KEYS.INVOICES st → invoices_in st = [].
Proof. unfold invoices_in, peek. by intros [-> | [text ->]]. Qed.

Lemma peek_unreadable_versions (st : LocalStorage) :
  unreadable COLLECTION_KEYS.VERSIONS st → versions_in st = [].
Proof. unfold versions_in, peek. by intros [-> | [text ->]]. Qed.

Lemma peek_unreadable_audit (st : LocalStorage) :
  unreadable COLLECTION_KEYS.AUDIT_LOGS st → audit_logs_in st = [].
Proof. unfold audit_logs_in, peek. by intros [-> | [text ->]]. Qed.

Lemma peek_unreadable_admins `{Constants} (st : LocalStorage) :
  unreadable COLLECTION_KEYS.ADMINS st → admins_in st = MOCK_ADMIN_TEAM.
Proof. unfold admins_in, peek. by intros [-> | [text ->]]. Qed.

(** Reads degrade instead of failing: when a key is missing or holds text
    that does not parse, the invoice readers answer with the empty
    collection and find no invoice, the version reader answers with the
    empty collection, the admin reader answers with the mock team, and the
    store is left as it was. *)
Theorem reads_fall_back `{Constants} (st : LocalStorage) :
  (unreadable COLLECTION_KEYS.INVOICES st →
     (∀ partnerCode, Invoices.getAll partnerCode st = (Normal [], st)) ∧
     (∀ id, Invoices.getById id st = (Normal None, st))) ∧
  (unreadable COLLECTION_KEYS.VERSIONS st →
     DatasetVersions.getAll st = (Normal [], st) ∧
     (∀ id, DatasetVersions.getById id st = (Normal None, st)) ∧
     LocalDatabaseService.getDatasetVersions st = (Normal [], st)) ∧
  (unreadable COLLECTION_KEYS.ADMINS st →
     Admins.getAll st = (Normal MOCK_ADMIN_TEAM, st)).
Proof.
  split; [|split].
  - intros Hbad. apply peek_unreadable_invoices in Hbad. split.
    + intros partnerCode. rewrite Invoices_getAll_run, Hbad.
      by destruct (truthy partnerCode).
    + intros id. by rewrite Invoices_getById_run, Hbad.
  - intros Hbad. apply peek_unreadable_versions in Hbad.
    assert (DatasetVersions.getAll st = (Normal [], st)) as Hall.
    { unfold DatasetVersions.getAll. rewrite loadFromStorage_peek.
      fold (versions_in st). by rewrite Hbad. }
    split; [done|]. split.
    + intros id. unfold DatasetVersions.getById.
      by rewrite (bind_normal _ _ _ _ _ Hall).
    + by rewrite getDatasetVersions_run, Hbad.
  - intros Hbad. apply peek_unreadable_admins in Hbad.
    unfold Admins.getAll. rewrite loadFromStorage_peek.
    fold (admins_in st). by rewrite Hbad.
Qed.

Lemma reads_fall_back_witness :
  Invoices.getAll (Some "P1") garbled = (Normal [], garbled) ∧
  Invoices.getById "i1" garbled = (Normal None, garbled) ∧
  @Admins.getAll no_mock_team garbled = (Normal [], garbled).
Proof.
  destruct (@reads_fall_back no_mock_team garbled) as (Hinv & _ & Hadm).
  destruct Hinv as [Hall Hone].
  { right. exists "[{". vm_compute; reflexivity. }
  split; [apply Hall | split; [apply Hone |]].
  apply Hadm. left. vm_compute; reflexivity.
Defined.

(** * Further properties of the audited operations *)

Section AuditedWrites.
Context `{Medium}.
Context {T : Type} `{Storable T}.

Lemma saveToStorage_other_keys (key k : string) (data : T) (st : LocalStorage) :
  k ≠ key → (saveToStorage key data st).2 !! k = st !! k.
Proof.
  intros Hne.
  destruct (saveToStorage_cases key data st) as [-> | ->]; cbn [snd]; [|done].
  by rewrite lookup_insert_ne.
Qed.

Lemma audited_save_other_keys (key k : string) (data : T) (r : Readings)
    (log : AuditLogInput.t) (st : LocalStorage) :
  k ≠ key → k ≠ COLLECTION_KEYS.AUDIT_LOGS →
  ((saveToStorage key data;; createAuditLog r log) st).2 !! k = st !! k.
Proof.
  intros Hkey Haudit.
  destruct (saveToStorage_cases key data st) as [E | E].
  - rewrite (bind_normal _ _ _ _ _ E).
    rewrite createAuditLog_other_keys by done. by rewrite lookup_insert_ne.
  - by rewrite (bind_throw _ _ _ _ _ E).
Qed.

(** A write that is refused stops the operation before the audit entry. *)
Lemma audited_save_rejected (key : string) (data : T) (k : () → JS unit)
    (st : LocalStorage) :
  accepts st key (to_slot data) = false →
  (saveToStorage key data ≫= k) st =
    (Throw (Error ("Storage quota exceeded or unavailable for " +:+ key)), st).
Proof.
  intros Hrej. pose proof (saveToStorage_rejected key data st Hrej) as E.
  by rewrite (bind_throw _ _ _ _ _ E).
Qed.

End AuditedWrites.

Lemma DatasetVersions_delete_run `{Medium} (r : Readings) (id : string)
    (userId : option string) (st : LocalStorage) :
  DatasetVersions_delete r id userId st =
    (saveToStorage COLLECTION_KEYS.VERSIONS
       (filter (λ v, DatasetVersion.id v ≠ id) (versions_in st)) ≫=
     λ _, match find (λ v, String.eqb (DatasetVersion.id v) id) (versions_in st) with
          | Some version =>
              createAuditLog r (delete_entry id version (default "system" userId))
          | None => mret ()
          end) st.
Proof.
  unfold DatasetVersions_delete, DatasetVersions.getAll. js_unfold.
  by rewrite loadFromStorage_peek.
Qed.

(** Each audited operation writes under its own key and the audit log's
    key and nowhere else. *)
Theorem operations_keep_other_keys `{Medium} `{Engine} (r : Readings)
    (userId : option string) (st : LocalStorage) :
  (∀ inv, other_keys_kept [COLLECTION_KEYS.INVOICES; COLLECTION_KEYS.AUDIT_LOGS] st
            (Invoices.create r inv userId st).2) ∧
  (∀ id updates,
     other_keys_kept [COLLECTION_KEYS.INVOICES; COLLECTION_KEYS.AUDIT_LOGS] st
       (Invoices.update r id updates userId st).2) ∧
  (∀ version,
     other_keys_kept [COLLECTION_KEYS.VERSIONS; COLLECTION_KEYS.AUDIT_LOGS] st
       (DatasetVersions.save r version userId st).2) ∧
  (∀ id, other_keys_kept [COLLECTION_KEYS.VERSIONS; COLLECTION_KEYS.AUDIT_LOGS] st
           (DatasetVersions_delete r id userId st).2) ∧
  (∀ log, other_keys_kept [COLLECTION_KEYS.AUDIT_LOGS] st (createAuditLog r log st).2).
Proof.
  unfold other_keys_kept. repeat split.
  - intros inv key Hkey. rewrite Invoices_create_run. unfold Invoices.save.
    apply audited_save_other_keys; set_solver.
  - intros id updates key Hkey. rewrite Invoices_update_run.
    destruct (findIndex _ _) as [k|]; [|done].
    destruct (invoices_in st !! k); [|done]. unfold Invoices.save.
    apply audited_save_other_keys; set_solver.
  - intros version key Hkey. rewrite DatasetVersions_save_run.
    apply audited_save_other_keys; set_solver.
  - intros id key Hkey. rewrite DatasetVersions_delete_run.
    destruct (find _ _) as [version|].
    + apply audited_save_other_keys; set_solver.
    + destruct (saveToStorage_cases COLLECTION_KEYS.VERSIONS
                  (filter (λ v, DatasetVersion.id v ≠ id) (versions_in st)) st)
        as [E | E].
      * rewrite (bind_normal _ _ _ _ _ E). cbn [snd mret JS_ret].
        rewrite lookup_insert_ne; [done | set_solver].
      * by rewrite (bind_throw _ _ _ _ _ E).
  - intros log key Hkey. apply createAuditLog_other_keys. set_solver.
Qed.

(** A refused entity write stops the operation at once: it throws the
    storage error that names the entity's key, and the store, audit log
    included, is exactly as before. *)
Theorem refused_write_changes_nothing `{Medium} `{Engine} (r : Readings)
    (userId : option string) (st : LocalStorage) :
  (∀ inv,
     accepts st COLLECTION_KEYS.INVOICES (StoredInvoices (inv :: invoices_in st)) = false →
     Invoices.create r inv userId st =
       (Throw (Error "Storage quota exceeded or unavailable for hcp_invoices"), st)) ∧
  (∀ id updates k existing,
     findIndex (invoice_has_id id) (invoices_in st) = Some k →
     invoices_in st !! k = Some existing →
     accepts st COLLECTION_KEYS.INVOICES
       (StoredInvoices (<[k := spread existing updates]> (invoices_in st))) = false →
     Invoices.update r id updates userId st =
       (Throw (Error "Storage quota exceeded or unavailable for hcp_invoices"), st)) ∧
  (∀ version,
     accepts st COLLECTION_KEYS.VERSIONS
       (StoredVersions (retained version (versions_in st))) = false →
     DatasetVersions.save r version userId st =
       (Throw (Error "Storage quota exceeded or unavailable for hcp_versions"), st)).
Proof.
  split; [|split].
  - intros inv Hrej. rewrite Invoices_create_run. unfold Invoices.save.
    exact (audited_save_rejected COLLECTION_KEYS.INVOICES (inv :: invoices_in st) _ st Hrej).
  - intros id updates k existing Hfind Hk Hrej.
    rewrite Invoices_update_run, Hfind, Hk. unfold Invoices.save.
    exact (audited_save_rejected COLLECTION_KEYS.INVOICES
             (<[k := spread existing updates]> (invoices_in st)) _ st Hrej).
  - intros version Hrej. rewrite DatasetVersions_save_run.
    exact (audited_save_rejected COLLECTION_KEYS.VERSIONS
             (retained version (versions_in st)) _ st Hrej).
Qed.

Lemma refused_write_changes_nothing_witness :
  @Invoices.create (quota_medium 2) noon invoice_i1 None two_invoices =
    (Throw (Error "Storage quota exceeded or unavailable for hcp_invoices"),
     two_invoices).
Proof.
  apply (proj1 (@refused_write_changes_nothing (quota_medium 2) decimal noon None
                  two_invoices)).
  vm_compute; reflexivity.
Defined.



Lemma operations_keep_other_keys_witness :
  (@Invoices.create roomy noon invoice_i1 None five_versions).2
    !! COLLECTION_KEYS.VERSIONS =
  five_versions !! COLLECTION_KEYS.VERSIONS.
Proof.
  apply (proj1 (@operations_keep_other_keys roomy decimal noon None five_versions)
           invoice_i1).
  intros Hin. apply list_elem_of_In in Hin. simpl in Hin.
  destruct Hin as [Hin | [Hin | []]]; discriminate Hin.
Defined.

(** * Further properties of the dataset versions *)

Lemma retained_head (version : DatasetVersion.t) (current : list DatasetVersion.t) :
  ∃ rest, retained version current = version :: rest.
Proof.
  unfold retained. destruct (5 <? length (version :: current))%nat eqn:E; [|eauto].
  destruct current as [|v current]; [discriminate E|]. simpl. eauto.
Qed.

Lemma DatasetVersions_getById_run (id : string) (st : LocalStorage) :
  DatasetVersions.getById id st =
    (Normal (find (λ v, String.eqb (DatasetVersion.id v) id) (versions_in st)), st).
Proof.
  unfold DatasetVersions.getById, DatasetVersions.getAll. js_unfold.
  by rewrite loadFromStorage_peek.
Qed.

(** A saved version can be read back: once [save] has stored the version
    list, whether or not the audit entry follows, [getById] of the
    version's id gives the version just saved, also when older versions
    carry the same id, and [getAll] lists it first. *)
Theorem saved_version_is_found `{Medium} `{Engine} (r : Readings)
    (version : DatasetVersion.t) (userId : option string) (st : LocalStorage) :
  accepts st COLLECTION_KEYS.VERSIONS
    (StoredVersions (retained version (versions_in st))) = true →
  DatasetVersions.getById (DatasetVersion.id version)
    (DatasetVersions.save r version userId st).2 =
    (Normal (Some version), (DatasetVersions.save r version userId st).2) ∧
  ∃ rest, DatasetVersions.getAll (DatasetVersions.save r version userId st).2 =
            (Normal (version :: rest), (DatasetVersions.save r version userId st).2).
Proof.
  intros Hacc.
  pose proof (versions_after_save r version userId st) as Hafter.
  rewrite Hacc in Hafter.
  destruct (retained_head version (versions_in st)) as [rest Hrest].
  rewrite Hrest in Hafter. split.
  - rewrite DatasetVersions_getById_run, Hafter. simpl.
    by rewrite String.eqb_refl.
  - exists rest. unfold DatasetVersions.getAll. rewrite loadFromStorage_peek.
    fold (versions_in (DatasetVersions.save r version userId st).2).
    by rewrite Hafter.
Qed.

Lemma saved_version_is_found_witness :
  DatasetVersions.getById (DatasetVersion.id (version_n 6))
    (@DatasetVersions.save roomy decimal noon (version_n 6) None five_versions).2 =
    (Normal (Some (version_n 6)),
     (@DatasetVersions.save roomy decimal noon (version_n 6) None five_versions).2).
Proof.
  apply (@saved_version_is_found roomy decimal noon (version_n 6) None five_versions).
  reflexivity.
Defined.


Lemma filter_keeps_all (id : string) (l : list DatasetVersion.t) :
  (∀ v, v ∈ l → DatasetVersion.id v ≠ id) →
  filter (λ v, DatasetVersion.id v ≠ id) l = l.
Proof.
  induction l as [|v l IH]; intros Hall; [done|].
  rewrite filter_cons_True by (apply Hall; by left).
  f_equal. apply IH. intros w Hw. apply Hall. by right.
Qed.



(** Deleting an id that no version carries is no silent no-op: the version
    list is written back as it is, so the call throws when the medium
    refuses that write; when the write goes through the versions read the
    same as before and no audit entry is added. *)
Theorem delete_of_absent_id_still_writes `{Medium} (r : Readings) (id : string)
    (userId : option string) (st : LocalStorage) :
  (∀ v, v ∈ versions_in st → DatasetVersion.id v ≠ id) →
  (accepts st COLLECTION_KEYS.VERSIONS (StoredVersions (versions_in st)) = false →
     DatasetVersions_delete r id userId st =
       (Throw (Error "Storage quota exceeded or unavailable for hcp_versions"), st)) ∧
  (accepts st COLLECTION_KEYS.VERSIONS (StoredVersions (versions_in st)) = true →
     DatasetVersions_delete r id userId st =
       (Normal (), <[COLLECTION_KEYS.VERSIONS := StoredVersions (versions_in st)]> st) ∧
     versions_in (DatasetVersions_delete r id userId st).2 = versions_in st ∧
     audit_logs_in (DatasetVersions_delete r id userId st).2 = audit_logs_in st).
Proof.
  intros Habsent. rewrite DatasetVersions_delete_run.
  rewrite (filter_keeps_all id (versions_in st) Habsent).
  assert (find (λ v, String.eqb (DatasetVersion.id v) id) (versions_in st) = None)
    as ->.
  { destruct (find _ _) as [v|] eqn:Hfind; [|done].
    apply find_some in Hfind as [Hin Hid]. apply String.eqb_eq in Hid.
    apply list_elem_of_In in Hin. by destruct (Habsent v Hin). }
  split; intros Hmedium.
  - exact (audited_save_rejected COLLECTION_KEYS.VERSIONS (versions_in st) _ st Hmedium).
  - pose proof (saveToStorage_accepted COLLECTION_KEYS.VERSIONS (versions_in st) st
                  Hmedium) as E.
    rewrite (bind_normal _ _ _ _ _ E). cbn [snd mret JS_ret].
    split; [done|]. split.
    + unfold versions_in at 1. apply peek_insert_eq.
    + unfold audit_logs_in at 1.
      by rewrite (peek_insert_ne COLLECTION_KEYS.VERSIONS COLLECTION_KEYS.AUDIT_LOGS).
Qed.

Lemma delete_of_absent_id_still_writes_witness :
  @DatasetVersions_delete (quota_medium 4) noon "v9" None five_versions =
    (Throw (Error "Storage quota exceeded or unavailable for hcp_versions"),
     five_versions).
Proof.
  apply (@delete_of_absent_id_still_writes (quota_medium 4) noon "v9" None
           five_versions).
  - intros v Hv. change (v ∈ version_n <$> [5; 4; 3; 2; 1]%Z) in Hv.
    apply list_elem_of_In in Hv. simpl in Hv.
    destruct Hv as [<- | [<- | [<- | [<- | [<- | []]]]]]; vm_compute; discriminate.
  - vm_compute; reflexivity.
Defined.

(** * Further properties of the invoice repository *)

Lemma findIndex_lookup {A} (p : A → bool) (l : list A) (k : nat) :
  findIndex p l = Some k → ∃ x, l !! k = Some x ∧ p x = true.
Proof.
  revert k. induction l as [|y l IH]; intros k; simpl; [done|].
  destruct (p y) eqn:Hp.
  - intros [= <-]. eauto.
  - destruct (findIndex p l) as [j|]; [|done]. intros [= <-].
    simpl. by apply IH.
Qed.

Lemma findIndex_same_tests {A} (p : A → bool) (l l' : list A) :
  p <$> l = p <$> l' → findIndex p l = findIndex p l'.
Proof.
  revert l'. induction l as [|y l IH]; intros [|y' l']; try done.
  simpl. intros [= Hy Hrest]. rewrite Hy. by rewrite (IH l' Hrest).
Qed.

Lemma spread_nothing (existing : Invoice.t) :
  spread existing PartialInvoice.empty = existing.
Proof. by destruct existing. Qed.

Lemma default_twice {A} (a : A) (o : option A) :
  default (default a o) o = default a o.
Proof. by destruct o. Qed.

Lemma spread_twice (existing : Invoice.t) (updates : PartialInvoice.t) :
  spread (spread existing updates) updates = spread existing updates.
Proof.
  destruct existing.
  destruct updates as [? ? ? ? ? ? ? ? ? ? ? ? ? ? ? paid reference].
  unfold spread. cbn [Invoice.id Invoice.invoiceNumber Invoice.partnerCode
    Invoice.billingPeriod Invoice.issueDate Invoice.dueDate Invoice.currency
    Invoice.items Invoice.subtotal Invoice.taxRate Invoice.taxAmount
    Invoice.totalAmount Invoice.status Invoice.notes Invoice.publicMemo
    Invoice.paidAt Invoice.transactionReference PartialInvoice.id
    PartialInvoice.invoiceNumber PartialInvoice.partnerCode
    PartialInvoice.billingPeriod PartialInvoice.issueDate PartialInvoice.dueDate
    PartialInvoice.currency PartialInvoice.items PartialInvoice.subtotal
    PartialInvoice.taxRate PartialInvoice.taxAmount PartialInvoice.totalAmount
    PartialInvoice.status PartialInvoice.notes PartialInvoice.publicMemo
    PartialInvoice.paidAt PartialInvoice.transactionReference].
  rewrite !default_twice. by destruct paid, reference.
Qed.

Section InvoiceShape.
Context `{Medium}.

(** The invoices stored after an [update], whatever became of the audit
    entry. *)
Lemma invoices_after_update (r : Readings) (id : string) (updates : PartialInvoice.t)
    (userId : option string) (st : LocalStorage) :
  invoices_in (Invoices.update r id updates userId st).2 =
    match findIndex (invoice_has_id id) (invoices_in st) with
    | Some k =>
        match invoices_in st !! k with
        | Some existing =>
            if accepts st COLLECTION_KEYS.INVOICES
                 (StoredInvoices (<[k := spread existing updates]> (invoices_in st)))
            then <[k := spread existing updates]> (invoices_in st)
            else invoices_in st
        | None => invoices_in st
        end
    | None => invoices_in st
    end.
Proof.
  rewrite Invoices_update_run.
  destruct (findIndex _ _) as [k|]; [|done].
  destruct (invoices_in st !! k) as [existing|]; [|done].
  unfold Invoices.save. destruct (accepts _ _ _) eqn:E.
  - pose proof (saveToStorage_accepted COLLECTION_KEYS.INVOICES
                  (<[k := spread existing updates]> (invoices_in st)) st E) as Hs.
    rewrite (bind_normal _ _ _ _ _ Hs). unfold invoices_in at 1.
    rewrite peek_after_audit by apply key_distinct_invoices_audit.
    apply peek_insert_eq.
  - pose proof (saveToStorage_rejected COLLECTION_KEYS.INVOICES
                  (<[k := spread existing updates]> (invoices_in st)) st E) as Hs.
    by rewrite (bind_throw _ _ _ _ _ Hs).
Qed.
End InvoiceShape.

(** [update] never adds or removes an invoice; it keeps every id in place
    when the partial fields carry no id; and with no partial field at all
    it leaves the collection as it was. *)
Theorem update_keeps_the_collection_shape `{Medium} (r : Readings) (id : string)
    (updates : PartialInvoice.t) (userId : option string) (st : LocalStorage) :
  length (invoices_in (Invoices.update r id updates userId st).2) =
    length (invoices_in st) ∧
  (PartialInvoice.id updates = None →
     Invoice.id <$> invoices_in (Invoices.update r id updates userId st).2 =
     Invoice.id <$> invoices_in st) ∧
  (updates = PartialInvoice.empty →
     invoices_in (Invoices.update r id updates userId st).2 = invoices_in st).
Proof.
  rewrite invoices_after_update.
  destruct (findIndex _ _) as [k|]; [|done].
  destruct (invoices_in st !! k) as [existing|] eqn:Hk; [|done].
  destruct (accepts _ _ _); [|done].
  split; [by rewrite length_insert|]. split.
  - intros Hid. rewrite list_fmap_insert.
    apply list_insert_id. rewrite list_lookup_fmap, Hk. simpl.
    by rewrite Hid.
  - intros ->. rewrite spread_nothing. by apply list_insert_id.
Qed.

Lemma update_keeps_the_collection_shape_witness :
  Invoice.id <$> invoices_in
    (@Invoices.update roomy noon "i1" mark_paid None two_invoices).2 =
  Invoice.id <$> invoices_in two_invoices.
Proof.
  apply (@update_keeps_the_collection_shape roomy noon "i1" mark_paid None
           two_invoices).
  reflexivity.
Defined.

(** Repeating an [update] whose partial fields carry no id changes nothing
    more: when both writes go through, the invoices after the second call
    are the invoices after the first. *)
Theorem update_twice_is_update_once `{Medium} (r1 r2 : Readings) (id : string)
    (updates : PartialInvoice.t) (userId : option string) (st : LocalStorage) :
  PartialInvoice.id updates = None →
  (∀ s v, accepts s COLLECTION_KEYS.INVOICES v = true) →
  invoices_in
    (Invoices.update r2 id updates userId
       (Invoices.update r1 id updates userId st).2).2 =
  invoices_in (Invoices.update r1 id updates userId st).2.
Proof.
  intros Hid Hroom.
  rewrite (invoices_after_update r2).
  pose proof (invoices_after_update r1 id updates userId st) as Hfirst.
  destruct (proj2 (update_keeps_the_collection_shape r1 id updates userId st))
    as [Hids _].
  specialize (Hids Hid).
  assert (findIndex (invoice_has_id id)
            (invoices_in (Invoices.update r1 id updates userId st).2) =
          findIndex (invoice_has_id id) (invoices_in st)) as Hsame.
  { apply findIndex_same_tests.
    change (invoice_has_id id) with ((λ s, String.eqb s id) ∘ Invoice.id).
    rewrite !list_fmap_compose. by rewrite Hids. }
  rewrite Hsame.
  destruct (findIndex _ (invoices_in st)) as [k|] eqn:Hfind; [|done].
  destruct (findIndex_lookup _ _ _ Hfind) as (existing & Hk & _).
  rewrite Hk, Hroom in Hfirst. rewrite Hfirst.
  rewrite list_lookup_insert_eq by (by eapply lookup_lt_Some).
  rewrite Hroom, spread_twice. apply list_insert_id.
  apply list_lookup_insert_eq. by eapply lookup_lt_Some.
Qed.

Lemma update_twice_is_update_once_witness :
  invoices_in
    (@Invoices.update roomy noon "i1" mark_paid None
       (@Invoices.update roomy noon "i1" mark_paid None two_invoices).2).2 =
  invoices_in (@Invoices.update roomy noon "i1" mark_paid None two_invoices).2.
Proof.
  apply (@update_twice_is_update_once roomy noon noon "i1" mark_paid None
           two_invoices); reflexivity.
Defined.

(** * Further properties of the admin roster *)

(** Once a roster has been saved it is the roster, the empty one included:
    [getAll] returns it instead of the mock team, [getById] searches it,
    and after an empty roster has been saved nobody has access to
    anything. *)
Theorem saved_roster_replaces_the_mock_team `{Medium} `{Constants}
    (admins : list AdminUser.t) (st st' : LocalStorage) :
  Admins.save admins st = (Normal (), st') →
  Admins.getAll st' = (Normal admins, st') ∧
  (∀ userId, Admins.getById userId st' = (Normal (find (has_id userId) admins), st')) ∧
  (admins = [] →
   ∀ userId partnerCode, Admins.hasAccess userId partnerCode st' = (Normal false, st')).
Proof.
  unfold Admins.save. intros Hsave.
  assert (admins_in st' = admins) as Hroster
    by exact (peek_after_save COLLECTION_KEYS.ADMINS admins MOCK_ADMIN_TEAM st st' Hsave).
  split; [|split].
  - unfold Admins.getAll. rewrite loadFromStorage_peek.
    fold (admins_in st'). by rewrite Hroster.
  - intros userId. by rewrite getById_run, Hroster.
  - intros -> userId partnerCode. by rewrite hasAccess_run, Hroster.
Qed.

Lemma saved_roster_replaces_the_mock_team_witness :
  @Admins.getAll [admin_hq] (@Admins.save roomy [] ∅).2 =
    (Normal [], (@Admins.save roomy [] ∅).2).
Proof.
  apply (@saved_roster_replaces_the_mock_team roomy [admin_hq] [] ∅).
  vm_compute; reflexivity.
Defined.

(** * Properties of the older store ([localDatabase.ts]) *)

Section LocalDBFacts.
Context `{Medium}.

Lemma LocalDB_saveItem_run {T} `{Storable T} (key : string) (data : T)
    (st : LocalStorage) :
  LocalDB.saveItem key data st =
    (Normal (), if accepts st key (to_slot data) then <[key := to_slot data]> st else st).
Proof.
  unfold LocalDB.saveItem, setItem. js_unfold. by destruct (accepts _ _ _).
Qed.

Lemma LocalDB_loadItem_run {T} `{Storable T} (key : string) (fallback : T)
    (st : LocalStorage) :
  LocalDB.loadItem key fallback st = (Normal (peek key fallback st), st).
Proof.
  unfold LocalDB.loadItem, peek, getItem. js_unfold.
  destruct (st !! key) as [v|]; simpl; [|done].
  by destruct (of_slot v).
Qed.
End LocalDBFacts.

(** The older store never reports a failed save.  [saveInvoices] and
    [saveAdmins] return normally whatever the medium does; when the write
    is refused the store is unchanged, so the data handed in is lost and
    the next read gives the previous collection.  [deleteDatasetVersion]
    has no such guard: a refused write there escapes as the medium's own
    error. *)
Theorem older_store_swallows_save_failures `{Medium} (st : LocalStorage) :
  (∀ invoices,
     (LocalDB.saveInvoices invoices st).1 = Normal () ∧
     (accepts st COLLECTION_KEYS.INVOICES (StoredInvoices invoices) = false →
        LocalDB.saveInvoices invoices st = (Normal (), st) ∧
        LocalDB.getInvoices (LocalDB.saveInvoices invoices st).2 =
          (Normal (invoices_in st), st))) ∧
  (∀ admins,
     (LocalDB.saveAdmins admins st).1 = Normal () ∧
     (accepts st COLLECTION_KEYS.ADMINS (StoredAdmins admins) = false →
        LocalDB.saveAdmins admins st = (Normal (), st))) ∧
  (∀ id,
     accepts st COLLECTION_KEYS.VERSIONS
       (StoredVersions (filter (λ v, DatasetVersion.id v ≠ id) (versions_in st)))
       = false →
     LocalDB.deleteDatasetVersion id st = (Throw QuotaExceededError, st)).
Proof.
  split; [|split].
  - intros invoices. unfold LocalDB.saveInvoices. rewrite LocalDB_saveItem_run.
    split; [done|]. intros Hrej.
    change (to_slot invoices) with (StoredInvoices invoices).
    change LocalDB.KEYS.INVOICES with COLLECTION_KEYS.INVOICES.
    rewrite Hrej. split; [done|]. cbn [snd].
    unfold LocalDB.getInvoices. by rewrite LocalDB_loadItem_run.
  - intros admins. unfold LocalDB.saveAdmins. rewrite LocalDB_saveItem_run.
    split; [done|]. intros Hrej.
    change (to_slot admins) with (StoredAdmins admins).
    change LocalDB.KEYS.ADMINS with COLLECTION_KEYS.ADMINS.
    by rewrite Hrej.
  - intros id Hrej. unfold LocalDB.deleteDatasetVersion.
    rewrite (bind_normal _ _ _ _ _ (getDatasetVersions_run st)).
    unfold setItem.
    change LocalDatabaseService.KEYS.VERSIONS with COLLECTION_KEYS.VERSIONS.
    change (to_slot (filter (λ v, DatasetVersion.id v ≠ id) (versions_in st)))
      with (StoredVersions (filter (λ v, DatasetVersion.id v ≠ id) (versions_in st))).
    by rewrite Hrej.
Qed.

Lemma older_store_swallows_save_failures_witness :
  @LocalDB.saveInvoices (quota_medium 2) [invoice_i1; invoice_i2; invoice_i1]
    two_invoices = (Normal (), two_invoices) ∧
  @LocalDB.deleteDatasetVersion (quota_medium 3) "v1" five_versions =
    (Throw QuotaExceededError, five_versions).
Proof.
  split.
  - apply (proj1 (@older_store_swallows_save_failures (quota_medium 2) two_invoices)
             [invoice_i1; invoice_i2; invoice_i1]).
    vm_compute; reflexivity.
  - apply (proj2 (proj2 (@older_store_swallows_save_failures (quota_medium 3)
                           five_versions)) "v1").
    vm_compute; reflexivity.
Defined.

(** The two layers share their keys.  What the older store saves, the
    repositories read, and the other way round: invoices saved with
    [LocalDB.saveInvoices] are what [Invoices.getAll] returns, an invoice
    created with [Invoices.create] heads what [LocalDB.getInvoices]
    returns, and a version saved with [saveDatasetVersion] is found by
    [DatasetVersions.getById]. *)
Theorem layers_share_their_keys `{Medium} (st : LocalStorage) :
  (∀ invoices,
     accepts st COLLECTION_KEYS.INVOICES (StoredInvoices invoices) = true →
     Invoices.getAll None (LocalDB.saveInvoices invoices st).2 =
       (Normal invoices, (LocalDB.saveInvoices invoices st).2)) ∧
  (∀ r inv userId st',
     Invoices.create r inv userId st = (Normal (), st') →
     LocalDB.getInvoices st' = (Normal (inv :: invoices_in st), st')) ∧
  (∀ version,
     accepts st COLLECTION_KEYS.VERSIONS
       (StoredVersions (retained version (versions_in st))) = true →
     DatasetVersions.getById (DatasetVersion.id version)
       (LocalDatabaseService.saveDatasetVersion version st).2 =
       (Normal (Some version), (LocalDatabaseService.saveDatasetVersion version st).2)).
Proof.
  split; [|split].
  - intros invoices Hacc. unfold LocalDB.saveInvoices.
    rewrite LocalDB_saveItem_run. cbn [snd].
    change (to_slot invoices) with (StoredInvoices invoices).
    change LocalDB.KEYS.INVOICES with COLLECTION_KEYS.INVOICES.
    rewrite Hacc, Invoices_getAll_run. cbn [truthy].
    unfold invoices_in, peek. by rewrite lookup_insert_eq.
  - intros r inv userId st' Hcreate. unfold LocalDB.getInvoices.
    rewrite LocalDB_loadItem_run.
    change (peek LocalDB.KEYS.INVOICES [] st') with (invoices_in st').
    by rewrite (Invoices_create_returns r inv userId st st' Hcreate).
  - intros version Hacc.
    pose proof (versions_after_saveDatasetVersion version st) as Hafter.
    rewrite Hacc in Hafter.
    destruct (retained_head version (versions_in st)) as [rest Hrest].
    rewrite Hrest in Hafter.
    rewrite DatasetVersions_getById_run, Hafter. simpl.
    by rewrite String.eqb_refl.
Qed.

Lemma layers_share_their_keys_witness :
  Invoices.getAll None (@LocalDB.saveInvoices roomy [invoice_i1] two_invoices).2 =
    (Normal [invoice_i1], (@LocalDB.saveInvoices roomy [invoice_i1] two_invoices).2).
Proof.
  apply (proj1 (@layers_share_their_keys roomy two_invoices) [invoice_i1]).
  reflexivity.
Defined.

(** * Properties of the audit log query *)







(** * Further properties of the gateway *)

Lemma table_of_known_type (type : string) :
  type ∈ ["developers"; "invoices"; "events"; "admins"; "agreements"; "campaigns";
          "registry"] →
  switch_tableName type = Some type ∧ entityTableMap_own type = Some type.
Proof.
  intros Hin. apply list_elem_of_In in Hin. simpl in Hin.
  repeat destruct Hin as [<- | Hin]; [by vm_compute.. | done].
Qed.

Lemma switch_tableName_unknown (type : string) :
  type ∉ ["developers"; "invoices"; "events"; "admins"; "agreements"; "campaigns";
          "registry"] →
  switch_tableName type = None.
Proof.
  intros Hout. unfold switch_tableName.
  destruct (includes _ type) eqn:E; [|done].
  apply includes_elem_of in E. done.
Qed.

Section GatewayReads.
Context `{Services}.

(** A verified GET reads one table or none.  Without a [type] parameter,
    or with an empty one, it is answered 400 'Missing type parameter'; with
    a type outside the seven entity types, 400 'Invalid type parameter';
    in both cases nothing is sent to the database.  With one of the seven
    types it sends exactly [SELECT * FROM <type>], without parameters, and
    answers 200 with the rows, or 500 when the statement fails. *)
Theorem get_reads_one_table (env : ProcessEnv) (event : HandlerEvent)
    (db : Database) (secret token : string) :
  JWT_SECRET env = Some secret → secret ≠ "" →
  authorization_header event = Some ("Bearer " +:+ token) →
  jwt_verify token secret = Verified →
  httpMethod event = "GET" →
  (truthy (type_parameter event) = false →
     handler env event db = error_reply db 400 "Missing type parameter") ∧
  (∀ type, type_parameter event = Some type → type ≠ "" →
     type ∉ ["developers"; "invoices"; "events"; "admins"; "agreements";
             "campaigns"; "registry"] →
     handler env event db = error_reply db 400 "Invalid type parameter") ∧
  (∀ type, type_parameter event = Some type →
     type ∈ ["developers"; "invoices"; "events"; "admins"; "agreements";
             "campaigns"; "registry"] →
     issued (handler env event db) = [("SELECT * FROM " +:+ type, [])] ∧
     database (handler env event db) = (query ("SELECT * FROM " +:+ type) [] db).2 ∧
     response (handler env event db) =
       match (query ("SELECT * FROM " +:+ type) [] db).1 with
       | Some rows => {| statusCode := 200; response_body := Some (JArr rows) |}
       | None =>
           {| statusCode := 500;
              response_body := Some (JObj [("error", JStr "Internal server error")]) |}
       end).
Proof.
  intros Henv Hsecret Hheader Hok Hget.
  rewrite (handler_with_token env event db secret token) by done.
  rewrite Hok. unfold dispatch. rewrite Hget. cbn [String.eqb Ascii.eqb Bool.eqb].
  unfold handle_GET. fold (type_parameter event). split; [|split].
  - by intros ->.
  - intros type Htype Hne Hout. rewrite Htype.
    rewrite (truthy_nonempty type Hne). cbn [negb default from_option id].
    by rewrite (switch_tableName_unknown type Hout).
  - intros type Htype Hin.
    destruct (table_of_known_type type Hin) as [Hswitch _].
    assert (type ≠ "") as Hne.
    { intros ->. apply list_elem_of_In in Hin. simpl in Hin.
      repeat destruct Hin as [Hin | Hin]; done. }
    rewrite Htype, (truthy_nonempty type Hne). cbn [negb default from_option id].
    rewrite Hswitch. unfold run_query.
    by destruct (query _ _ _) as [[rows|] db'].
Qed.
End GatewayReads.

Lemma get_reads_one_table_witness :
  @handler wide_services configured (get_request None) idle =
    @error_reply wide_services idle 400 "Missing type parameter" ∧
  @handler wide_services configured (get_request (Some "users")) idle =
    @error_reply wide_services idle 400 "Invalid type parameter" ∧
  issued (@handler wide_services configured (get_request (Some "events")) idle) =
    [("SELECT * FROM " +:+ "events", [])].
Proof.
  split; [|split].
  - apply (proj1 (@get_reads_one_table wide_services configured (get_request None)
                    idle "s3cret" "fresh.token" eq_refl ltac:(discriminate)
                    ltac:(vm_compute; reflexivity) ltac:(vm_compute; reflexivity)
                    eq_refl)).
    reflexivity.
  - apply (proj1 (proj2 (@get_reads_one_table wide_services configured
                    (get_request (Some "users")) idle "s3cret" "fresh.token" eq_refl
                    ltac:(discriminate) ltac:(vm_compute; reflexivity)
                    ltac:(vm_compute; reflexivity) eq_refl)) "users").
    + vm_compute; reflexivity.
    + discriminate.
    + intros Hin. apply list_elem_of_In in Hin. simpl in Hin.
      repeat destruct Hin as [Hin | Hin]; done.
  - apply (proj2 (proj2 (@get_reads_one_table wide_services configured
                    (get_request (Some "events")) idle "s3cret" "fresh.token" eq_refl
                    ltac:(discriminate) ltac:(vm_compute; reflexivity)
                    ltac:(vm_compute; reflexivity) eq_refl)) "events").
    + vm_compute; reflexivity.
    + do 2 right. by left.
Defined.

Lemma truthy_inv (s : option string) :
  truthy s = true → ∃ text, s = Some text ∧ text ≠ "".
Proof.
  destruct s as [text|]; [|discriminate]. simpl. intros Hne.
  exists text. split; [done|]. apply String.eqb_neq. by apply negb_true_iff.
Qed.

Section GatewayEffects.
Context `{Services}.

Lemma error_reply_accounted (db : Database) (code : Z) (msg : string) :
  code ≠ 200%Z → accounted db (error_reply db code msg).
Proof.
  intros Hcode. unfold accounted. simpl. split; [lia|]. split; [done|done].
Qed.

Lemma run_query_accounted (text : string) (params : list json) (db : Database)
    (answer : list json → HandlerResponse) :
  (∀ rows, statusCode (answer rows) = 200%Z) →
  accounted db (run_query text params db answer).
Proof.
  intros Hok. unfold run_query, accounted.
  destruct (query text params db) as [[rows|] db']; simpl.
  - rewrite Hok. split; [lia|]. split; [done|].
    intros Hin. rewrite !elem_of_cons, elem_of_nil in Hin. lia.
  - split; [lia|]. split; [done|].
    intros Hin. rewrite !elem_of_cons, elem_of_nil in Hin. lia.
Qed.

Lemma dispatch_accounted (event : HandlerEvent) (db : Database) :
  accounted db (dispatch event db) ∧
  (issued (dispatch event db) ≠ [] →
   httpMethod event = "GET" ∨ httpMethod event = "POST").
Proof.
  unfold dispatch.
  destruct (String.eqb (httpMethod event) "GET") eqn:Hget.
  { apply String.eqb_eq in Hget. split; [|by left].
    unfold handle_GET.
    repeat case_match;
      (by apply error_reply_accounted) || (by apply run_query_accounted). }
  destruct (String.eqb (httpMethod event) "POST") eqn:Hpost.
  { apply String.eqb_eq in Hpost. split; [|by right].
    unfold handle_POST.
    repeat case_match;
      (by apply error_reply_accounted) || (by apply run_query_accounted). }
  split; [by apply error_reply_accounted | done].
Qed.

(** The handler sends at most one statement per request, and none unless
    the secret is configured, the request carries a bearer token that
    [jwt.verify] accepts, and the method is GET or POST.  An answer 200
    stands for exactly one statement; an answer 400, 401 or 405 stands for
    none, with the database as it was. *)
Theorem no_statement_without_a_verified_token (env : ProcessEnv)
    (event : HandlerEvent) (db : Database) :
  (length (issued (handler env event db)) ≤ 1)%nat ∧
  (issued (handler env event db) ≠ [] →
     (∃ token secret,
        authorization_header event = Some ("Bearer " +:+ token) ∧
        JWT_SECRET env = Some secret ∧ secret ≠ "" ∧
        jwt_verify token secret = Verified) ∧
     (httpMethod event = "GET" ∨ httpMethod event = "POST")) ∧
  (statusCode (response (handler env event db)) = 200%Z →
     length (issued (handler env event db)) = 1%nat) ∧
  (statusCode (response (handler env event db)) ∈ [400; 401; 405]%Z →
     issued (handler env event db) = [] ∧ database (handler env event db) = db).
Proof.
  assert (∀ code msg, code ≠ 200%Z →
            handler env event db = error_reply db code msg →
            (length (issued (handler env event db)) ≤ 1)%nat ∧
            (issued (handler env event db) ≠ [] →
               (∃ token secret,
                  authorization_header event = Some ("Bearer " +:+ token) ∧
                  JWT_SECRET env = Some secret ∧ secret ≠ "" ∧
                  jwt_verify token secret = Verified) ∧
               (httpMethod event = "GET" ∨ httpMethod event = "POST")) ∧
            (statusCode (response (handler env event db)) = 200%Z →
               length (issued (handler env event db)) = 1%nat) ∧
            (statusCode (response (handler env event db)) ∈ [400; 401; 405]%Z →
               issued (handler env event db) = [] ∧
               database (handler env event db) = db)) as Hrefused.
  { intros code msg Hcode ->.
    destruct (error_reply_accounted db code msg Hcode) as (H1 & H2 & H3).
    split; [exact H1|]. split; [done|]. split; [exact H2 | exact H3]. }
  destruct (authorization_header_cases event)
    as [Hnone | [(a & Hheader & Hprefix) | [token Hheader]]].
  - apply (Hrefused 401%Z "Unauthorized"); [done|].
    unfold handler. by rewrite Hnone.
  - apply (Hrefused 401%Z "Unauthorized"); [done|].
    unfold handler. rewrite Hheader. simpl. rewrite Hprefix.
    by rewrite orb_true_r.
  - destruct (truthy (JWT_SECRET env)) eqn:Henv.
    + apply truthy_inv in Henv as (secret & Henv & Hsecret).
      pose proof (handler_with_token env event db secret token Henv Hsecret Hheader)
        as Hrun.
      destruct (jwt_verify token secret) eqn:Hverify;
        try (apply (Hrefused 401%Z "Invalid token"); [done | exact Hrun]).
      rewrite Hrun.
      destruct (dispatch_accounted event db) as [(H1 & H2 & H3) Hmethod].
      split; [exact H1|]. split; [|split; [exact H2 | exact H3]].
      intros Hissued. split; [by exists token, secret | by apply Hmethod].
    + apply (Hrefused 500%Z "Internal server error"); [done|].
      by apply (handler_without_secret env event db token).
Qed.
End GatewayEffects.

Lemma no_statement_without_a_verified_token_witness :
  length (issued (@handler wide_services configured
                    (post_request (Some invoice_body_text)) idle)) = 1%nat.
Proof.
  apply (@no_statement_without_a_verified_token wide_services configured
           (post_request (Some invoice_body_text)) idle).
  vm_compute; reflexivity.
Defined.

Lemma isValidColumnName_chars (name : string) :
  isValidColumnName name = true →
  name ≠ "" ∧ ∀ c, c ∈ String.list_ascii_of_string name → ident_char c = true.
Proof.
  destruct name as [|a rest]; [discriminate|]. simpl.
  intros [Hstart Hrest]%andb_true_iff. split; [done|].
  intros c [-> | Hin]%elem_of_cons.
  - by apply ident_start_char.
  - rewrite forallb_forall in Hrest. apply Hrest. by apply list_elem_of_In.
Qed.

Lemma length_list_ascii_of_string (s : string) :
  length (String.list_ascii_of_string s) = String.length s.
Proof. induction s as [|c s IH]; simpl; [done | by rewrite IH]. Qed.

(** [Object.values] gives one value per key of [Object.keys]. *)
Lemma Object_values_length (v : json) :
  length (Object_values v) = length (Object_keys v).
Proof.
  destruct v; simpl; try done.
  - unfold indices. by rewrite !length_fmap, length_list_ascii_of_string, length_seq.
  - unfold indices. by rewrite length_fmap, length_seq.
  - by rewrite !length_fmap.
Qed.

Section GatewayWrites.
Context `{Services}.

Lemma verified_post (env : ProcessEnv) (event : HandlerEvent) (db : Database)
    (secret token : string) :
  JWT_SECRET env = Some secret → secret ≠ "" →
  authorization_header event = Some ("Bearer " +:+ token) →
  jwt_verify token secret = Verified →
  httpMethod event = "POST" →
  handler env event db = handle_POST event db.
Proof.
  intros Henv Hsecret Hheader Hok Hpost.
  rewrite (handler_with_token env event db secret token) by done.
  rewrite Hok. unfold dispatch. by rewrite Hpost.
Qed.

Lemma run_query_issued (text : string) (params : list json) (db : Database)
    (answer : list json → HandlerResponse) :
  issued (run_query text params db answer) = [(text, params)].
Proof. unfold run_query. by destruct (query text params db) as [[rows|] db']. Qed.

(** The POST branch on a body that parsed to something with members. *)
Lemma handle_POST_members (event : HandlerEvent) (db : Database)
    (parsed : json) (type data : option json) :
  JSON_parse (body_text event) = Some parsed →
  get_member "type" parsed = Some type →
  get_member "data" parsed = Some data →
  handle_POST event db =
    if negb (json_truthy type) || negb (json_truthy data)
    then error_reply db 400 "Missing type or data in request body"
    else
      match ToString (default JNull type) with
      | None => error_reply db 500 "Internal server error"
      | Some key =>
          match entityTableMap_at key with
          | None => error_reply db 400 "Invalid type parameter"
          | Some tableName =>
              if forallb isValidColumnName (Object_keys (default JNull data))
              then run_query (insert_statement (tableName_text tableName)
                                (default JNull data)).1
                     (Object_values (default JNull data)) db
                     (λ rows, {| statusCode := 200; response_body := head rows |})
              else error_reply db 400 "Invalid column name in data"
          end
      end.
Proof.
  intros Hparse Htype Hdata. unfold handle_POST.
  by rewrite Hparse, Htype, Hdata.
Qed.

Lemma get_member_type_of_data (parsed : json) (data : option json) :
  get_member "data" parsed = Some data →
  ∃ type, get_member "type" parsed = Some type.
Proof. destruct parsed; simpl; eauto; discriminate. Qed.

(** Whatever a verified POST sends to the database was checked first:
    when a statement is issued, every field name of [data] is a valid
    column name, made of characters of [[a-zA-Z0-9_]] only, the statement
    is the INSERT built from those names, and it carries one parameter per
    column. *)
Theorem post_sends_only_checked_columns (env : ProcessEnv) (event : HandlerEvent)
    (db : Database) (secret token : string) (parsed data : json) :
  JWT_SECRET env = Some secret → secret ≠ "" →
  authorization_header event = Some ("Bearer " +:+ token) →
  jwt_verify token secret = Verified →
  httpMethod event = "POST" →
  JSON_parse (body_text event) = Some parsed →
  get_member "data" parsed = Some (Some data) →
  issued (handler env event db) ≠ [] →
  (∀ key, key ∈ Object_keys data →
     isValidColumnName key = true ∧
     ∀ c, c ∈ String.list_ascii_of_string key → ident_char c = true) ∧
  (∃ table, issued (handler env event db) = [insert_statement table data]) ∧
  length (Object_values data) = length (Object_keys data).
Proof.
  intros Henv Hsecret Hheader Hok Hpost Hparse Hdata.
  rewrite (verified_post env event db secret token) by done.
  destruct (get_member_type_of_data parsed _ Hdata) as [type Htype].
  rewrite (handle_POST_members event db parsed type (Some data)) by done.
  destruct (negb (json_truthy type) || negb (json_truthy (Some data))); [done|].
  destruct (ToString _) as [name|]; [|done].
  destruct (entityTableMap_at _) as [tableName|]; [|done].
  cbn [default from_option id].
  destruct (forallb isValidColumnName (Object_keys data)) eqn:Hcols; [|done].
  intros _. split; [|split].
  - intros key Hkey. rewrite forallb_forall in Hcols.
    apply list_elem_of_In in Hkey. specialize (Hcols key Hkey).
    split; [done|]. by apply isValidColumnName_chars.
  - exists (tableName_text tableName). by rewrite run_query_issued.
  - apply Object_values_length.
Qed.

(** A verified POST whose [data] is a non-empty array is never stored:
    the array's keys are its indices, which are no column names, so nothing
    is sent and the database stays as it was.  The answer is 400, except
    where the [type] of the body is truthy and has no property key, which
    makes the lookup of the type throw and the answer 500.  With an empty
    array and a known entity type the check has nothing to refuse, and an
    INSERT without columns is sent. *)
Theorem post_refuses_array_data (env : ProcessEnv) (event : HandlerEvent)
    (db : Database) (secret token : string) (parsed : json) (elems : list json) :
  JWT_SECRET env = Some secret → secret ≠ "" →
  authorization_header event = Some ("Bearer " +:+ token) →
  jwt_verify token secret = Verified →
  httpMethod event = "POST" →
  JSON_parse (body_text event) = Some parsed →
  get_member "data" parsed = Some (Some (JArr elems)) →
  (elems ≠ [] →
     issued (handler env event db) = [] ∧
     database (handler env event db) = db ∧
     (statusCode (response (handler env event db)) = 400%Z ∨
      statusCode (response (handler env event db)) = 500%Z) ∧
     (∀ type, get_member "type" parsed = Some type →
        (statusCode (response (handler env event db)) = 500%Z ↔
         json_truthy type = true ∧ ToString (default JNull type) = None))) ∧
  (elems = [] →
   ∀ type, get_member "type" parsed = Some (Some (JStr type)) →
     type ∈ ["developers"; "invoices"; "events"; "admins"; "agreements";
             "campaigns"; "registry"] →
     issued (handler env event db) =
       [("INSERT INTO " +:+ type +:+ " () VALUES () RETURNING *", [])]).
Proof.
  intros Henv Hsecret Hheader Hok Hpost Hparse Hdata.
  rewrite (verified_post env event db secret token) by done.
  destruct (get_member_type_of_data parsed _ Hdata) as [type Htype].
  split.
  - intros Hne.
    assert (forallb isValidColumnName (Object_keys (JArr elems)) = false) as Hcols.
    { destruct elems as [|e elems]; [done | reflexivity]. }
    destruct (handle_POST_invalid_column event db parsed (JArr elems) type
                Hparse Htype Hdata eq_refl Hcols) as (Hissued & Hdb & Hstatus & Hiff).
    split; [exact Hissued|]. split; [exact Hdb|]. split; [exact Hstatus|].
    intros type' Htype'. rewrite Htype' in Htype. injection Htype as ->.
    exact Hiff.
  - rewrite (handle_POST_members event db parsed type (Some (JArr elems))) by done.
    intros -> type' Htype' Hin. rewrite Htype' in Htype. injection Htype as <-.
    destruct (table_of_known_type type' Hin) as [_ Hown].
    assert (json_truthy (Some (JStr type')) = true) as ->.
    { destruct type'; [discriminate Hown | done]. }
    cbn [negb orb json_truthy default from_option id ToString].
    unfold entityTableMap_at. rewrite Hown.
    cbn [Object_keys indices length seq fmap list_fmap forallb].
    by rewrite run_query_issued.
Qed.

(** The entity type is looked up in an object literal, so names that every
    object inherits pass for entity types: a verified POST whose type is
    one of them, with well-formed field names, is not answered 'Invalid
    type parameter' but sends an INSERT whose table is the text of the
    inherited member. *)
Theorem post_takes_inherited_names_for_types (env : ProcessEnv)
    (event : HandlerEvent) (db : Database) (secret token : string)
    (parsed data : json) (type : string) :
  JWT_SECRET env = Some secret → secret ≠ "" →
  authorization_header event = Some ("Bearer " +:+ token) →
  jwt_verify token secret = Verified →
  httpMethod event = "POST" →
  JSON_parse (body_text event) = Some parsed →
  get_member "type" parsed = Some (Some (JStr type)) →
  get_member "data" parsed = Some (Some data) →
  type ∈ Object_prototype →
  json_truthy (Some data) = true →
  forallb isValidColumnName (Object_keys data) = true →
  issued (handler env event db) = [insert_statement (inherited_text type) data].
Proof.
  intros Henv Hsecret Hheader Hok Hpost Hparse Htype Hdata Hin Htruthy Hcols.
  rewrite (verified_post env event db secret token) by done.
  rewrite (handle_POST_members event db parsed (Some (JStr type)) (Some data))
    by done.
  rewrite Htruthy.
  assert (entityTableMap_at type = Some (Inherited type)) as Hat.
  { apply list_elem_of_In in Hin. simpl in Hin.
    repeat destruct Hin as [<- | Hin]; [by vm_compute.. | done]. }
  assert (json_truthy (Some (JStr type)) = true) as ->.
  { destruct type; [discriminate Hat | done]. }
  cbn [negb orb default from_option id ToString].
  rewrite Hat, Hcols. by rewrite run_query_issued.
Qed.

(** How a verified POST fails before the database is asked: a body that
    does not parse, or that parses to [null], is answered 500; a body
    without a [type] or without [data] (or with a falsy one), 400 'Missing
    type or data in request body'; a type that is a string naming neither
    an entity type nor an inherited member, 400 'Invalid type parameter'.
    Nothing is sent in any of these cases. *)
Theorem post_failure_answers (env : ProcessEnv) (event : HandlerEvent)
    (db : Database) (secret token : string) :
  JWT_SECRET env = Some secret → secret ≠ "" →
  authorization_header event = Some ("Bearer " +:+ token) →
  jwt_verify token secret = Verified →
  httpMethod event = "POST" →
  ((JSON_parse (body_text event) = None ∨ JSON_parse (body_text event) = Some JNull) →
     handler env event db = error_reply db 500 "Internal server error") ∧
  (∀ parsed type data,
     JSON_parse (body_text event) = Some parsed →
     get_member "type" parsed = Some type →
     get_member "data" parsed = Some data →
     json_truthy type = false ∨ json_truthy data = false →
     handler env event db =
       error_reply db 400 "Missing type or data in request body") ∧
  (∀ parsed type data,
     JSON_parse (body_text event) = Some parsed →
     get_member "type" parsed = Some (Some (JStr type)) →
     get_member "data" parsed = Some data →
     json_truthy data = true →
     type ≠ "" → entityTableMap_own type = None → type ∉ Object_prototype →
     handler env event db = error_reply db 400 "Invalid type parameter").
Proof.
  intros Henv Hsecret Hheader Hok Hpost.
  rewrite (verified_post env event db secret token) by done.
  split; [|split].
  - unfold handle_POST. by intros [-> | ->].
  - intros parsed type data Hparse Htype Hdata Hfalsy.
    rewrite (handle_POST_members event db parsed type data) by done.
    destruct Hfalsy as [-> | ->]; [done | by rewrite orb_true_r].
  - intros parsed type data Hparse Htype Hdata Htruthy Hne Hown Hproto.
    rewrite (handle_POST_members event db parsed (Some (JStr type)) data) by done.
    rewrite Htruthy.
    assert (json_truthy (Some (JStr type)) = true) as ->.
    { simpl. apply negb_true_iff. by apply String.eqb_neq. }
    cbn [negb orb default from_option id ToString].
    unfold entityTableMap_at. rewrite Hown.
    destruct (includes Object_prototype type) eqn:E; [|done].
    by apply includes_elem_of in E.
Qed.
End GatewayWrites.

Lemma post_sends_only_checked_columns_witness :
  (∃ table,
     issued (@handler wide_services configured
               (post_request (Some invoice_body_text)) idle) =
       [insert_statement table
          (JObj [("id", JStr "i1"); ("partnerCode", JStr "P1")])]) ∧
  length (Object_values (JObj [("id", JStr "i1"); ("partnerCode", JStr "P1")])) =
    length (Object_keys (JObj [("id", JStr "i1"); ("partnerCode", JStr "P1")])).
Proof.
  apply (@post_sends_only_checked_columns wide_services configured
           (post_request (Some invoice_body_text)) idle "s3cret" "fresh.token"
           invoice_body (JObj [("id", JStr "i1"); ("partnerCode", JStr "P1")])).
  - reflexivity.
  - discriminate.
  - vm_compute; reflexivity.
  - vm_compute; reflexivity.
  - reflexivity.
  - vm_compute; reflexivity.
  - reflexivity.
  - vm_compute; discriminate.
Defined.

Lemma post_refuses_array_data_witness :
  (statusCode (response (@handler wide_services configured
                           (post_request (Some array_body_text)) idle)) = 400%Z ∧
   issued (@handler wide_services configured
             (post_request (Some array_body_text)) idle) = [] ∧
   database (@handler wide_services configured
               (post_request (Some array_body_text)) idle) = idle) ∧
  (statusCode (response (@handler wide_services configured
                           (post_request (Some masked_array_body_text)) idle)) = 500%Z ∧
   issued (@handler wide_services configured
             (post_request (Some masked_array_body_text)) idle) = [] ∧
   database (@handler wide_services configured
               (post_request (Some masked_array_body_text)) idle) = idle).
Proof.
  split.
  - destruct (proj1 (@post_refuses_array_data wide_services configured
                  (post_request (Some array_body_text)) idle "s3cret" "fresh.token"
                  array_body [JObj [("id", JStr "i1")]]
                  eq_refl ltac:(discriminate) ltac:(vm_compute; reflexivity)
                  ltac:(vm_compute; reflexivity) eq_refl
                  ltac:(vm_compute; reflexivity) eq_refl) ltac:(discriminate))
      as (Hissued & Hdb & [H400 | H500] & Hiff).
    + split; [exact H400 | split; [exact Hissued | exact Hdb]].
    + destruct (proj1 (Hiff (Some (JStr "invoices")) eq_refl) H500) as [_ E].
      discriminate E.
  - destruct (proj1 (@post_refuses_array_data wide_services configured
                  (post_request (Some masked_array_body_text)) idle "s3cret"
                  "fresh.token" masked_array_body [JNum 1%Z]
                  eq_refl ltac:(discriminate) ltac:(vm_compute; reflexivity)
                  ltac:(vm_compute; reflexivity) eq_refl
                  ltac:(vm_compute; reflexivity) eq_refl) ltac:(discriminate))
      as (Hissued & Hdb & _ & Hiff).
    split; [|split; [exact Hissued | exact Hdb]].
    apply (proj2 (Hiff (Some (JArr [JObj [("toString", JNum 1%Z)]])) eq_refl)).
    split; reflexivity.
Defined.

Lemma post_takes_inherited_names_for_types_witness :
  issued (@handler wide_services configured
            (post_request (Some inherited_type_body_text)) idle) =
    [insert_statement (@inherited_text wide_services "toString")
       (JObj [("id", JStr "i1")])].
Proof.
  apply (@post_takes_inherited_names_for_types wide_services configured
           (post_request (Some inherited_type_body_text)) idle "s3cret" "fresh.token"
           inherited_type_body (JObj [("id", JStr "i1")]) "toString").
  - reflexivity.
  - discriminate.
  - vm_compute; reflexivity.
  - vm_compute; reflexivity.
  - reflexivity.
  - vm_compute; reflexivity.
  - reflexivity.
  - reflexivity.
  - do 5 right. by left.
  - reflexivity.
  - reflexivity.
Defined.

Lemma post_failure_answers_witness :
  @handler wide_services configured (post_request (Some "not json")) idle =
    @error_reply wide_services idle 500 "Internal server error" ∧
  @handler wide_services configured (post_request None) idle =
    @error_reply wide_services idle 400 "Missing type or data in request body" ∧
  @handler wide_services configured (post_request (Some unknown_type_body_text)) idle =
    @error_reply wide_services idle 400 "Invalid type parameter".
Proof.
  split; [|split].
  - apply (proj1 (@post_failure_answers wide_services configured
                    (post_request (Some "not json")) idle "s3cret" "fresh.token"
                    eq_refl ltac:(discriminate) ltac:(vm_compute; reflexivity)
                    ltac:(vm_compute; reflexivity) eq_refl)).
    left. vm_compute; reflexivity.
  - apply (proj1 (proj2 (@post_failure_answers wide_services configured
                    (post_request None) idle "s3cret" "fresh.token"
                    eq_refl ltac:(discriminate) ltac:(vm_compute; reflexivity)
                    ltac:(vm_compute; reflexivity) eq_refl))
             (JObj []) None None).
    + vm_compute; reflexivity.
    + reflexivity.
    + reflexivity.
    + by left.
  - apply (proj2 (proj2 (@post_failure_answers wide_services configured
                    (post_request (Some unknown_type_body_text)) idle "s3cret"
                    "fresh.token" eq_refl ltac:(discriminate)
                    ltac:(vm_compute; reflexivity) ltac:(vm_compute; reflexivity)
                    eq_refl))
             unknown_type_body "users" (Some (JObj [("id", JStr "i1")]))).
    + vm_compute; reflexivity.
    + reflexivity.
    + reflexivity.
    + reflexivity.
    + discriminate.
    + vm_compute; reflexivity.
    + intros Hin. apply list_elem_of_In in Hin. simpl in Hin.
      repeat destruct Hin as [Hin | Hin]; done.
Defined.

(** * Properties of the login handlers *)

Lemma json_truthy_some (o : option json) :
  json_truthy o = true → ∃ v, o = Some v.
Proof. destruct o as [v|]; [eauto | discriminate]. Qed.

Lemma credentials_given (email password : option json) :
  negb (json_truthy email) || negb (json_truthy password) = false →
  ∃ e p, email = Some e ∧ password = Some p.
Proof.
  intros [He Hp]%orb_false_iff.
  apply negb_false_iff, json_truthy_some in He as [e ->].
  apply negb_false_iff, json_truthy_some in Hp as [p ->]. eauto.
Qed.

Lemma rest_without_hides (name : string) (v : json) :
  ∃ members, rest_without name v = JObj members ∧ name ∉ members.*1.
Proof.
  unfold rest_without. eexists. split; [reflexivity|].
  intros ((key & value) & -> & [Hne _]%list_elem_of_filter)%list_elem_of_fmap.
  by apply Hne.
Qed.

Lemma login_body_hides (token : string) (user : json) :
  hides_password {| statusCode := 200; response_body := login_body token user |}.
Proof.
  destruct (rest_without_hides "password" user) as (members & Hrest & Hout).
  exists token, members. unfold login_body. simpl. by rewrite Hrest.
Qed.

Ltac login_cases :=
  repeat case_match; subst; simpl in *;
  try discriminate; try done.

Section LoginFacts.
Context `{Services} `{AuthServices}.

(** No version of the login handler ever sends the stored password hash
    back: an answer 200 is a token together with the row found, less its
    [password] member. *)
Theorem login_answer_hides_the_password (env : ProcessEnv) (event : HandlerEvent)
    (db : Database) :
  (statusCode (response (AuthTyped.handler env event db)) = 200%Z →
     hides_password (response (AuthTyped.handler env event db))) ∧
  (statusCode (response (AuthGuarded.handler env event db)) = 200%Z →
     hides_password (response (AuthGuarded.handler env event db))) ∧
  (statusCode (response (AuthPlain.handler env event db)) = 200%Z →
     hides_password (response (AuthPlain.handler env event db))).
Proof.
  split; [|split].
  - unfold AuthTyped.handler. login_cases. intros _. apply login_body_hides.
  - unfold AuthGuarded.handler. login_cases. intros _. apply login_body_hides.
  - unfold AuthPlain.handler. login_cases. intros _. apply login_body_hides.
Qed.
(** A token is only ever issued for a password that matched: an answer 200
    from any version means the request was a POST with an email and a
    password, the SELECT found a row for that email, [bcrypt.compare]
    accepted the password against the row's hash, and the token was signed
    for that row's id and role, for one hour in the typed version and for a
    day in the other two. *)
Theorem token_needs_a_matching_password (env : ProcessEnv) (event : HandlerEvent)
    (db : Database) :
  (statusCode (response (AuthTyped.handler env event db)) = 200%Z →
     password_matched AuthTyped.select_admin "1h" env event db
       (AuthTyped.handler env event db)) ∧
  (statusCode (response (AuthGuarded.handler env event db)) = 200%Z →
     password_matched AuthGuarded.select_admin "24h" env event db
       (AuthGuarded.handler env event db)) ∧
  (statusCode (response (AuthPlain.handler env event db)) = 200%Z →
     password_matched AuthPlain.select_admin "24h" env event db
       (AuthPlain.handler env event db)).
Proof.
  unfold password_matched. split; [|split].
  - unfold AuthTyped.handler.
    destruct (String.eqb (httpMethod event) "POST") eqn:Hpost; cbn [negb]; [|done].
    apply String.eqb_eq in Hpost.
    destruct (JSON_parse (body_text event)) as [parsed|] eqn:Hparse; [|done].
    destruct (get_member "email" parsed) as [email|] eqn:Hemail; [|done].
    destruct (get_member "password" parsed) as [password|] eqn:Hpassword; [|done].
    destruct (negb _ || negb _) eqn:Hgiven; [done|].
    apply credentials_given in Hgiven as (e & p & -> & ->).
    cbn [default from_option id].
    destruct (query _ _ db) as [[[|user others]|] db'] eqn:Hquery; try done.
    destruct (get_member "password" user) as [hash|] eqn:Hhash; [|done].
    destruct (bcrypt_compare p hash) as [[|]|] eqn:Hcompare; try done.
    destruct (negb (truthy (JWT_SECRET env))); [done|].
    destruct (jwt_sign _ _ _ _) as [token|] eqn:Hsign; [|done].
    intros _. split; [done|]. by exists parsed, e, p, user, others, db', hash, token.
  - unfold AuthGuarded.handler.
    destruct (String.eqb (httpMethod event) "POST") eqn:Hpost; cbn [negb]; [|done].
    apply String.eqb_eq in Hpost.
    destruct (negb (truthy (JWT_SECRET env))); [done|].
    destruct (JSON_parse (body_text event)) as [parsed|] eqn:Hparse; [|done].
    destruct (get_member "email" parsed) as [email|] eqn:Hemail; [|done].
    destruct (get_member "password" parsed) as [password|] eqn:Hpassword; [|done].
    destruct (negb _ || negb _) eqn:Hgiven; [done|].
    apply credentials_given in Hgiven as (e & p & -> & ->).
    cbn [default from_option id].
    destruct (query _ _ db) as [[[|user others]|] db'] eqn:Hquery; try done.
    destruct (get_member "password" user) as [hash|] eqn:Hhash; [|done].
    destruct (bcrypt_compare p hash) as [[|]|] eqn:Hcompare; try done.
    destruct (jwt_sign _ _ _ _) as [token|] eqn:Hsign; [|done].
    intros _. split; [done|]. by exists parsed, e, p, user, others, db', hash, token.
  - unfold AuthPlain.handler.
    destruct (String.eqb (httpMethod event) "POST") eqn:Hpost; cbn [negb]; [|done].
    apply String.eqb_eq in Hpost.
    destruct (JSON_parse (body_text event)) as [parsed|] eqn:Hparse; [|done].
    destruct (get_member "email" parsed) as [email|] eqn:Hemail; [|done].
    destruct (get_member "password" parsed) as [password|] eqn:Hpassword; [|done].
    destruct (negb _ || negb _) eqn:Hgiven; [done|].
    apply credentials_given in Hgiven as (e & p & -> & ->).
    cbn [default from_option id].
    destruct (query _ _ db) as [[[|user others]|] db'] eqn:Hquery; try done.
    destruct (get_member "password" user) as [hash|] eqn:Hhash; [|done].
    destruct (bcrypt_compare p hash) as [[|]|] eqn:Hcompare; try done.
    destruct (jwt_sign _ _ _ _) as [token|] eqn:Hsign; [|done].
    intros _. split; [done|]. by exists parsed, e, p, user, others, db', hash, token.
Qed.

(** A refused login does not tell an unknown email from a wrong password:
    in every version both get the same 401 'Invalid credentials', and no
    401 says anything else.  (The guarded version gets that far only with
    the secret configured.) *)
Theorem login_failures_look_alike (env : ProcessEnv) (event : HandlerEvent)
    (db : Database) :
  refuses_alike AuthTyped.select_admin AuthTyped.handler env event db ∧
  (truthy (JWT_SECRET env) = true →
   refuses_alike AuthGuarded.select_admin AuthGuarded.handler env event db) ∧
  refuses_alike AuthPlain.select_admin AuthPlain.handler env event db.
Proof.
  unfold refuses_alike. split; [|split].
  - split.
    + unfold AuthTyped.handler. login_cases.
    + intros parsed email password Hpost Hparse Hemail Hpassword He Hp.
      unfold AuthTyped.handler.
      rewrite Hpost, Hparse, Hemail, Hpassword, He, Hp.
      cbn [String.eqb Ascii.eqb Bool.eqb negb orb default from_option id].
      split.
      * intros db' ->. done.
      * intros user others db' hash -> -> ->. done.
  - intros Hsecret. split.
    + unfold AuthGuarded.handler. login_cases.
    + intros parsed email password Hpost Hparse Hemail Hpassword He Hp.
      unfold AuthGuarded.handler.
      rewrite Hpost, Hsecret, Hparse, Hemail, Hpassword, He, Hp.
      cbn [String.eqb Ascii.eqb Bool.eqb negb orb default from_option id].
      split.
      * intros db' ->. done.
      * intros user others db' hash -> -> ->. done.
  - split.
    + unfold AuthPlain.handler. login_cases.
    + intros parsed email password Hpost Hparse Hemail Hpassword He Hp.
      unfold AuthPlain.handler.
      rewrite Hpost, Hparse, Hemail, Hpassword, He, Hp.
      cbn [String.eqb Ascii.eqb Bool.eqb negb orb default from_option id].
      split.
      * intros db' ->. done.
      * intros user others db' hash -> -> ->. done.
Qed.


(** Where the three versions part: without a configured secret the guarded
    version answers every POST 500 before it parses the body or asks the
    database; the typed version still looks the admin up and checks the
    password, but never answers 200; the plain version hands the missing
    secret to [jwt.sign], so it answers 200 only if the library signs
    without one. *)
Theorem login_without_a_secret (env : ProcessEnv) (event : HandlerEvent)
    (db : Database) :
  truthy (JWT_SECRET env) = false →
  (httpMethod event = "POST" →
   AuthGuarded.handler env event db = error_reply db 500 "Internal server error") ∧
  statusCode (response (AuthGuarded.handler env event db)) ≠ 200%Z ∧
  statusCode (response (AuthTyped.handler env event db)) ≠ 200%Z ∧
  ((∀ id role expiry, jwt_sign id role (JWT_SECRET env) expiry = None) →
   statusCode (response (AuthPlain.handler env event db)) ≠ 200%Z).
Proof.
  intros Hsecret. split; [|split; [|split]].
  - intros Hpost. unfold AuthGuarded.handler. by rewrite Hpost, Hsecret.
  - unfold AuthGuarded.handler. rewrite Hsecret. login_cases.
  - unfold AuthTyped.handler. rewrite Hsecret. login_cases.
  - intros Hrefuse. unfold AuthPlain.handler.
    repeat case_match; subst; simpl; try discriminate.
    by rewrite Hrefuse in *.
Qed.
End LoginFacts.

Lemma login_answer_hides_the_password_witness :
  hides_password
    (response (@AuthTyped.handler login_services login_library configured
                 (login_request (Some good_login_text)) 0%nat)).
Proof.
  apply (proj1 (@login_answer_hides_the_password login_services login_library
                  configured (login_request (Some good_login_text)) 0%nat)).
  vm_compute; reflexivity.
Defined.

Lemma token_needs_a_matching_password_witness :
  @password_matched login_services login_library AuthPlain.select_admin "24h"
    configured (login_request (Some good_login_text)) 0%nat
    (@AuthPlain.handler login_services login_library configured
       (login_request (Some good_login_text)) 0%nat).
Proof.
  apply (proj2 (proj2 (@token_needs_a_matching_password login_services login_library
                         configured (login_request (Some good_login_text)) 0%nat))).
  vm_compute; reflexivity.
Defined.

Lemma login_failures_look_alike_witness :
  @AuthGuarded.handler login_services login_library configured
    (login_request (Some unknown_login_text)) 0%nat =
    @error_after_query login_services 1%nat
      (AuthGuarded.select_admin, [JStr "nobody@hq.example"]) 401 "Invalid credentials" ∧
  @AuthGuarded.handler login_services login_library configured
    (login_request (Some bad_login_text)) 0%nat =
    @error_after_query login_services 1%nat
      (AuthGuarded.select_admin, [JStr "hana@hq.example"]) 401 "Invalid credentials".
Proof.
  split.
  - apply (proj1 (proj2 (proj1 (proj2 (@login_failures_look_alike login_services
                    login_library configured (login_request (Some unknown_login_text))
                    0%nat)) eq_refl)
                  (login_json "nobody@hq.example" "guess") (JStr "nobody@hq.example")
                  (JStr "guess") eq_refl ltac:(vm_compute; reflexivity) eq_refl eq_refl
                  eq_refl eq_refl)).
    reflexivity.
  - apply (proj2 (proj2 (proj1 (proj2 (@login_failures_look_alike login_services
                    login_library configured (login_request (Some bad_login_text))
                    0%nat)) eq_refl)
                  (login_json "hana@hq.example" "guess") (JStr "hana@hq.example")
                  (JStr "guess") eq_refl ltac:(vm_compute; reflexivity) eq_refl eq_refl
                  eq_refl eq_refl)
             hana_row [] 1%nat (Some (JStr "$2a$10$hash"))).
    + reflexivity.
    + reflexivity.
    + reflexivity.
Defined.


Lemma login_without_a_secret_witness :
  @AuthGuarded.handler login_services login_library unconfigured
    (login_request (Some good_login_text)) 0%nat =
    @error_reply login_services 0%nat 500 "Internal server error" ∧
  statusCode (response (@AuthPlain.handler login_services login_library unconfigured
                          (login_request (Some good_login_text)) 0%nat)) ≠ 200%Z.
Proof.
  destruct (@login_without_a_secret login_services login_library unconfigured
              (login_request (Some good_login_text)) 0%nat eq_refl)
    as (Hguarded & _ & _ & Hplain).
  split; [by apply Hguarded | by apply Hplain].
Defined.
